(** * wadl2swagger: the converter of [wadltools/swaggerconverter.py]

    A shallow embedding of the module's functions ([merge_dicts],
    [xsd_to_json_type], [style_to_in], [build_param], [build_response],
    [fix_json], [build_code_sample], [default_swagger_dict] and
    [SwaggerConverter.convert]) together with the properties of the
    conversion that the specification states, and further properties of
    the code.

    Conventions of the embedding:
    - a Python call either returns or raises: [outcome A];
    - the Swagger document is a tree of Python values ([value]); an
      [OrderedDict] (and a plain [dict], read in its iteration order) is an
      association list with insertion order;
    - [merge_dicts] mutates its first argument: on nested mappings it is
      written in state-passing style (the state of [a] is returned next to
      the outcome), and module [Store] gives the same function over an
      object store with references, where identity and aliasing are visible;
    - what the external libraries hand over (wadllib elements, docbook
      helpers of [wadltools.wadl], the [json] module) enters as data or as
      an interface. *)

From stdpp Require Import base option list strings gmap pretty.
From Stdlib Require Import ZArith Ascii String.
From Stdlib Require Import Floats.PrimFloat Floats.FloatOps Floats.SpecFloat.

Set Warnings "-register-all".

Local Open Scope string_scope.
Local Open Scope list_scope.
Local Open Scope Z_scope.

(** ** Exceptions and outcomes *)

(** The exceptions the module raises or lets through.  [PyException] is the
    bare [Exception(msg)] of [merge_dicts]; [WADLParseError] keeps the three
    attributes its constructor stores. *)
Inductive exn : Type :=
| ValueError (msg : string)
| KeyError (k : string)
| TypeError (msg : string)
| AttributeError (msg : string)
| RuntimeError (msg : string)
| PyException (msg : string)
| WADLParseError (orig_message wadl_file location : string) (cause : exn)
| BadWADLError (msg : string) (cause : exn) (wadl_file : string).

Inductive outcome (A : Type) : Type :=
| Ok (x : A)
| Raise (e : exn).
Arguments Ok {A} x.
Arguments Raise {A} e.

#[export] Instance outcome_ret : MRet outcome := fun A x => Ok x.
#[export] Instance outcome_bind : MBind outcome := fun A B f m =>
  match m with
  | Ok x => f x
  | Raise e => Raise e
  end.

(** [for x in xs: st = body(st, x)], an exception leaving the loop. *)
Fixpoint for_each {A S : Type} (body : S -> A -> outcome S) (xs : list A) (st : S)
  : outcome S :=
  match xs with
  | [] => Ok st
  | x :: xs' => st' ← body st x; for_each body xs' st'
  end.

(** ** Python strings *)

Definition DQUOTE : ascii := "034"%char.
Definition LF : ascii := "010"%char.

(** [s.split(sep)] for a one-character separator: never empty. *)
Fixpoint split_on (sep : ascii) (s : string) : list string :=
  match s with
  | EmptyString => [EmptyString]
  | String c s' =>
      if Ascii.eqb c sep then EmptyString :: split_on sep s'
      else match split_on sep s' with
           | w :: ws => String c w :: ws
           | [] => [String c EmptyString]
           end
  end.

(** [c in s] for a one-character needle. *)
Fixpoint contains_char (c : ascii) (s : string) : bool :=
  match s with
  | EmptyString => false
  | String c' s' => Ascii.eqb c' c || contains_char c s'
  end.

(** A text is a sequence of code points, here those below 256.  The XML
    library hands a text of the WADL over as a [str] when all its code
    points are below 128 and as a [unicode] otherwise. *)
Fixpoint is_unicode (s : string) : bool :=
  match s with
  | EmptyString => false
  | String c s' => (128 <=? Ascii.N_of_ascii c)%N || is_unicode s'
  end.

(** The characters [split()] and [isspace()] treat as blank: the six
    blanks of ASCII in a [str]; in a [unicode] also the separators U+001C
    to U+001F, the next line U+0085 and the no-break space U+00A0. *)
Definition is_space (unicode : bool) (c : ascii) : bool :=
  let n := Ascii.N_of_ascii c in
  (9 <=? n)%N && (n <=? 13)%N || (n =? 32)%N
  || unicode && ((28 <=? n)%N && (n <=? 31)%N || (n =? 133)%N || (n =? 160)%N).

(** [s.split()]: the maximal runs of non-blank characters. [cur] is the run
    being read, [unicode] the type of the text. *)
Fixpoint split_ws_from (unicode : bool) (cur : string) (s : string) : list string :=
  match s with
  | EmptyString => if String.eqb cur EmptyString then [] else [cur]
  | String c s' =>
      if is_space unicode c
      then (if String.eqb cur EmptyString then split_ws_from unicode EmptyString s'
            else cur :: split_ws_from unicode EmptyString s')
      else split_ws_from unicode (cur ++ String c EmptyString)%string s'
  end.

Definition split_ws (s : string) : list string :=
  split_ws_from (is_unicode s) EmptyString s.

(** [sep.join(l)] *)
Definition join (sep : string) (l : list string) : string := String.concat sep l.

Definition startswith (c : ascii) (s : string) : bool :=
  match s with
  | String c' _ => Ascii.eqb c' c
  | EmptyString => false
  end.

Definition digit_of (c : ascii) : option Z :=
  let n := Ascii.nat_of_ascii c in
  if (48 <=? n)%nat && (n <=? 57)%nat then Some (Z.of_nat n - 48) else None.

Fixpoint digits_from (acc : Z) (s : string) : option Z :=
  match s with
  | EmptyString => Some acc
  | String c s' =>
      match digit_of c with
      | Some d => digits_from (10 * acc + d) s'
      | None => None
      end
  end.

(** [int(s)] on a token of [split()]: an optional sign and at least one
    decimal digit; anything else is a [ValueError]. *)
Definition py_int (s : string) : outcome Z :=
  let bad := Raise (ValueError ("invalid literal for int() with base 10: " ++ s)%string) in
  let unsigned (t : string) : option Z :=
    match t with
    | EmptyString => None
    | _ => digits_from 0 t
    end in
  match s with
  | String "-" t => match unsigned t with Some n => Ok (- n) | None => bad end
  | String "+" t => match unsigned t with Some n => Ok n | None => bad end
  | _ => match unsigned s with Some n => Ok n | None => bad end
  end.

(** ** Python values *)

(** Dictionary keys of the document: strings, and the integer status codes
    of [responses]. *)
Inductive key : Type :=
| KStr (s : string)
| KInt (z : Z).

#[export] Instance key_eq_dec : EqDecision key.
Proof. solve_decision. Defined.

Definition key_eqb (k1 k2 : key) : bool :=
  match k1, k2 with
  | KStr s1, KStr s2 => String.eqb s1 s2
  | KInt z1, KInt z2 => Z.eqb z1 z2
  | _, _ => false
  end.

(** [str(key)] *)
Definition key_str (k : key) : string :=
  match k with
  | KStr s => s
  | KInt z => pretty z
  end.

(** The values of a document and of an overlay loaded by [yaml.load].
    [VFolded] is the module's [folded(unicode)] presenter class; [VDict]
    stands for [dict] and [OrderedDict] alike ([isinstance(x, dict)] holds
    of both). *)
Inductive value : Type :=
| VNone
| VBool (b : bool)
| VInt (z : Z)
| VFloat (f : float)
| VStr (s : string)
| VFolded (s : string)
| VList (l : list value)
| VDict (d : list (key * value)).

Abbreviation odict := (list (key * value)).

Definition is_dict (v : value) : bool :=
  match v with
  | VDict _ => true
  | _ => false
  end.

(** [d[key]], and [key in d] when it is [Some] *)
Fixpoint dict_get {V : Type} (k : key) (d : list (key * V)) : option V :=
  match d with
  | [] => None
  | (k', v) :: d' => if key_eqb k k' then Some v else dict_get k d'
  end.

(** [d[key] = v]: an existing key keeps its place, a new one goes last. *)
Fixpoint dict_set {V : Type} (k : key) (v : V) (d : list (key * V)) : list (key * V) :=
  match d with
  | [] => [(k, v)]
  | (k', v') :: d' =>
      if key_eqb k k' then (k', v) :: d' else (k', v') :: dict_set k v d'
  end.

(** [d.update(e)] *)
Definition dict_update {V : Type} (d e : list (key * V)) : list (key * V) :=
  fold_left (fun acc kv => dict_set kv.1 kv.2 acc) e d.

Definition keys {V : Type} (d : list (key * V)) : list key := map fst d.

(** *** Equality of values, Python's [==] *)

(** A float against an integer: exact comparison, as CPython does it. *)
Definition float_eq_Z (f : float) (z : Z) : bool :=
  match Prim2SF f with
  | S754_zero _ => z =? 0
  | S754_finite s m e =>
      let v := if s then Z.neg m else Z.pos m in
      if 0 <=? e then z =? v * 2 ^ e
      else (v mod 2 ^ (- e) =? 0) && (z =? v / 2 ^ (- e))
  | _ => false
  end.

Definition Z_of_bool (b : bool) : Z := if b then 1 else 0.

(** [v1 == v2].  Numbers compare by value across [bool], [int] and [float]
    (a NaN equals nothing, itself included); [str] and [folded] compare by
    their text; lists element by element; dictionaries as mappings, whatever
    the order of their keys (an overlay holds plain [dict]s). *)
Fixpoint py_eq (v1 v2 : value) {struct v1} : bool :=
  match v1, v2 with
  | VNone, VNone => true
  | VBool b1, VBool b2 => Bool.eqb b1 b2
  | VBool b1, VInt z2 => Z_of_bool b1 =? z2
  | VInt z1, VBool b2 => z1 =? Z_of_bool b2
  | VInt z1, VInt z2 => z1 =? z2
  | VFloat f1, VFloat f2 => PrimFloat.eqb f1 f2
  | VFloat f1, VInt z2 => float_eq_Z f1 z2
  | VInt z1, VFloat f2 => float_eq_Z f2 z1
  | VFloat f1, VBool b2 => float_eq_Z f1 (Z_of_bool b2)
  | VBool b1, VFloat f2 => float_eq_Z f2 (Z_of_bool b1)
  | (VStr s1 | VFolded s1), (VStr s2 | VFolded s2) => String.eqb s1 s2
  | VList l1, VList l2 =>
      (fix all2 (l1 l2 : list value) : bool :=
         match l1, l2 with
         | [], [] => true
         | x1 :: l1', x2 :: l2' => py_eq x1 x2 && all2 l1' l2'
         | _, _ => false
         end) l1 l2
  | VDict d1, VDict d2 =>
      (List.length d1 =? List.length d2)%nat &&
      (fix sub (d1 : odict) : bool :=
         match d1 with
         | [] => true
         | (k, x1) :: d1' =>
             match dict_get k d2 with
             | Some x2 => py_eq x1 x2 && sub d1'
             | None => false
             end
         end) d1
  | _, _ => false
  end.

(** ** merge_dicts on nested mappings *)

Definition dotted (path : list string) : string := join "." path.

Definition conflict (path : list string) : exn :=
  PyException ("Conflict at " ++ dotted path)%string.

(** [merge_dicts(a, b, path)].  The function walks [b] and writes into [a];
    the first component of the result is the state [a] is left in, also when
    the call raises.  [merge_into vb] is the call whose second argument is the
    mapping [vb]; the inner loop is [for key in b]. *)
Fixpoint merge_into (vb : value) (a : odict) (path : list string) {struct vb}
  : odict * outcome unit :=
  match vb with
  | VDict b =>
      (fix loop (b : odict) (a : odict) {struct b} : odict * outcome unit :=
         match b with
         | [] => (a, Ok tt)
         | (k, vbk) :: b' =>
             match dict_get k a with
             | Some vak =>
                 match vak, vbk with
                 | VDict ak, VDict _ =>
                     let '(ak', r) := merge_into vbk ak (path ++ [key_str k]) in
                     let a' := dict_set k (VDict ak') a in
                     match r with
                     | Ok _ => loop b' a'
                     | Raise e => (a', Raise e)
                     end
                 | _, _ =>
                     if py_eq vak vbk then loop b' a
                     else (a, Raise (conflict (path ++ [key_str k])))
                 end
             | None => loop b' (dict_set k vbk a)
             end
         end) b a
  | _ => (a, Ok tt)
  end.

Definition merge_dicts (a b : odict) (path : list string) : odict * outcome unit :=
  merge_into (VDict b) a path.

(** The value [merge_dicts] returns: [a] itself, or the exception. *)
Definition merge_result (r : odict * outcome unit) : outcome odict :=
  match r.2 with
  | Ok _ => Ok r.1
  | Raise e => Raise e
  end.

(** ** merge_dicts on an object store *)

(** Dictionaries are objects: a value slot holds a reference to one, or an
    immutable value (a scalar or a list).  The store maps each reference to
    the current state of its dictionary.  [Store.merge_dicts] is the same
    source function as [merge_dicts] above, with the writes [a[key] = b[key]]
    done in place and [b[key]] stored by reference. *)
Module Store.

Abbreviation loc := nat.

Inductive sval : Type :=
| SRef (l : loc)
| SVal (v : value).

Abbreviation obj := (list (key * sval)).
Abbreviation store := (gmap loc obj).

(** A reference outside the store does not exist in Python; the model
    stops on one. *)
Definition dangling : exn := TypeError "no such object".
Definition recursion_limit : exn := RuntimeError "maximum recursion depth exceeded".
Definition resized : exn := RuntimeError "dictionary changed size during iteration".

Section keys_loop.
(** [call] is the recursive call [merge_dicts(a[key], b[key], path + [str(key)])];
    [used] is the size of [b] when its iteration started. *)
Variable call : store -> loc -> loc -> list string -> store * outcome loc.
Variables (a b : loc) (path : list string) (used : nat).

(** One turn of [for key in b]. *)
Definition merge_key (k : key) (h : store) : store * outcome loc :=
  match h !! a, h !! b with
  | Some da, Some db =>
      match dict_get k db with
      | Some vb =>
          match dict_get k da with
          | Some va =>
              match va, vb with
              | SRef la, SRef lb => call h la lb (path ++ [key_str k])
              | SVal x, SVal y =>
                  if py_eq x y then (h, Ok a)
                  else (h, Raise (conflict (path ++ [key_str k])))
              | _, _ => (h, Raise (conflict (path ++ [key_str k])))
              end
          | None => (<[a := dict_set k vb da]> h, Ok a)
          end
      | None => (h, Raise (KeyError (key_str k)))
      end
  | _, _ => (h, Raise dangling)
  end.

(** [for key in b: ...; return a] over the keys still to come.  The
    iterator of a [dict] refuses to go on when the dictionary has
    changed size. *)
Fixpoint merge_keys (ks : list key) (h : store) : store * outcome loc :=
  match h !! b with
  | Some db =>
      if negb (List.length db =? used)%nat then (h, Raise resized)
      else match ks with
           | [] => (h, Ok a)
           | k :: ks' =>
               match merge_key k h with
               | (h', Ok _) => merge_keys ks' h'
               | (h', Raise e) => (h', Raise e)
               end
           end
  | None => (h, Raise dangling)
  end.
End keys_loop.

(** [merge_dicts(a, b, path)]; [depth] is the room left on the
    interpreter's call stack. *)
Fixpoint merge_dicts (depth : nat) (h : store) (a b : loc) (path : list string)
  : store * outcome loc :=
  match depth with
  | O => (h, Raise recursion_limit)
  | S depth' =>
      match h !! b with
      | Some db =>
          merge_keys (merge_dicts depth') a b path (List.length db) (keys db) h
      | None => (h, Raise dangling)
      end
  end.

End Store.

(** ** Options and source entities *)

(** [options] as [SwaggerConverter.__init__] reads it. *)
Record Options : Type := {
  autofix : bool;
  strict : bool;
  nodoc : bool;
  merge_dir : string
}.

(** What the converter reads of a [wadllib] parameter.  [param_doc] is the
    text [textwrap.dedent(DocHelper.docbook_to_markdown(doc))] when the
    parameter has a documentation element with text. *)
Record SourceParameter : Type := {
  param_name : string;
  param_style : string;
  param_is_required : bool;
  param_type : option string;
  param_doc : option string
}.

(** What the converter reads of a method's response element:
    [tag.attrib['status']], the text of its documentation element,
    the media type of its [application/json] representation, and the text
    of every [programlisting] block marked [language="javascript"], in
    document order. *)
Record SourceResponse : Type := {
  resp_status : option string;
  resp_doc_text : option string;
  resp_json_media_type : option string;
  resp_code_samples : list (option string)
}.

(** A method: its name (the verb), the Rackspace id attribute, the title of
    its documentation element, [DocHelper.short_desc_as_markdown], the
    parameters of each request representation, and the response (both absent
    when the element's tag is [None]). *)
Record SourceMethod : Type := {
  meth_name : string;
  meth_rax_id : option string;
  meth_title : option string;
  meth_short_desc : option string;
  meth_request : option (list (list SourceParameter));
  meth_response : option SourceResponse
}.

(** A resource: its [path] attribute, [resource.parameters('application/json')]
    ([None] when wadllib has no such media type for it), the [param] elements
    found directly under its tag, and its methods. *)
Record SourceResource : Type := {
  res_path : string;
  res_json_params : option (list SourceParameter);
  res_tag_params : list SourceParameter;
  res_methods : list SourceMethod
}.

(** ** TypeMapper and StyleMapper *)

Fixpoint assoc {V : Type} (k : string) (l : list (string * V)) : option V :=
  match l with
  | [] => None
  | (k', v) :: l' => if String.eqb k k' then Some v else assoc k l'
  end.

Definition typemap : list (string * list (string * value)) :=
  [ ("xsd",
     [ ("boolean", VStr "boolean");
       ("int", VStr "integer");
       ("integer", VStr "integer");
       ("decimal", VStr "number");
       ("string", VStr "string");
       ("anyURI", VDict [(KStr "type", VStr "string"); (KStr "format", VStr "uri")]);
       ("dateTime", VDict [(KStr "type", VStr "string"); (KStr "format", VStr "date-time")]);
       ("date", VStr "string");
       ("time", VStr "string") ]);
    ("csapi",
     [ ("UUID", VDict [(KStr "type", VStr "string")]) ]) ].

(** The right-hand sides of the table. *)
Definition type_fragments : list value :=
  [ VStr "boolean"; VStr "integer"; VStr "number"; VStr "string";
    VDict [(KStr "type", VStr "string"); (KStr "format", VStr "uri")];
    VDict [(KStr "type", VStr "string"); (KStr "format", VStr "date-time")];
    VDict [(KStr "type", VStr "string")] ].

(** [namespace, xsd_type = full_type.split(":")]: the unpacking wants exactly
    two parts. *)
Definition unpack2 (parts : list string) : outcome (string * string) :=
  match parts with
  | [x; y] => Ok (x, y)
  | _ :: _ :: _ :: _ => Raise (ValueError "too many values to unpack")
  | _ => Raise (ValueError "need more than 1 value to unpack")
  end.

Definition xsd_to_json_type (full_type : option string) : outcome (option value) :=
  match full_type with
  | None => Ok None
  | Some full_type =>
      '(namespace, xsd_type) ←
        (if contains_char ":" full_type then
           '(namespace, xsd_type) ← unpack2 (split_on ":" full_type);
           Ok (if String.eqb namespace "" || String.eqb namespace "xs"
               then "xsd" else namespace, xsd_type)
         else Ok ("xsd", full_type));
      Ok (match assoc namespace typemap with
          | Some types => assoc xsd_type types
          | None => None
          end)
  end.

Definition style_to_in (style : string) : outcome string :=
  match assoc style
          [ ("matrix", "unknown"); ("query", "query"); ("header", "header");
            ("template", "path"); ("plain", "body") ] with
  | Some location => Ok location
  | None => Raise (KeyError style)
  end.

(** ** ParameterBuilder *)

(** [param[k] == s] for a key the dictionary holds *)
Definition field_is (k : string) (s : string) (d : odict) : bool :=
  match dict_get (KStr k) d with
  | Some v => py_eq v (VStr s)
  | None => false
  end.

(** [param['required'] is not True] *)
Definition required_is_not_True (d : odict) : bool :=
  match dict_get (KStr "required") d with
  | Some (VBool true) => false
  | _ => true
  end.

(** [build_param(wadl_param)]: [Ok None] is the [return None] of a dropped
    parameter. *)
Definition build_param (options : Options) (wadl_param : SourceParameter)
  : outcome (option odict) :=
  let param := [ (KStr "name", VStr (param_name wadl_param));
                 (KStr "required", VBool (param_is_required wadl_param)) ] in
  location ← style_to_in (param_style wadl_param);
  let param := dict_set (KStr "in") (VStr location) param in
  let wadl_type := default "string" (param_type wadl_param) in
  json_type ← xsd_to_json_type (Some wadl_type);
  let json_type :=
    match json_type with
    | Some t => t
    | None => if autofix options then VStr "string" else VStr wadl_type
    end in
  let param :=
    match json_type with
    | VDict fragment => dict_update param fragment
    | _ => dict_set (KStr "type") json_type param
    end in
  if autofix options && field_is "in" "body" param then Ok None
  else
    let param :=
      if autofix options && field_is "in" "path" param && required_is_not_True param
      then dict_set (KStr "required") (VBool true) param
      else param in
    let param :=
      if nodoc options then param
      else match param_doc wadl_param with
           | Some description => dict_set (KStr "description") (VFolded description) param
           | None => param
           end in
    Ok (Some param).

(** The loops [for param in ...: swagger_param = self.build_param(param); if
    swagger_param is not None: ....append(swagger_param)], on the list being
    filled. *)
Definition add_param (options : Options) (acc : list odict) (p : SourceParameter)
  : outcome (list odict) :=
  swagger_param ← build_param options p;
  Ok (match swagger_param with
      | Some sp => acc ++ [sp]
      | None => acc
      end).

Definition build_params (options : Options) (ps : list SourceParameter)
  (acc : list odict) : outcome (list odict) :=
  for_each (add_param options) ps acc.

(** The [parameters] key exists once a parameter has been appended. *)
Definition set_parameters (ps : list odict) (d : odict) : odict :=
  match ps with
  | [] => d
  | _ => dict_set (KStr "parameters") (VList (map VDict ps)) d
  end.

(** ** Code samples *)

(** The two calls the converter makes of Python's [json] module:
    [json.loads(s)], which returns the decoded data or raises, and
    [json.dumps(data, indent=4, separators=(',', ': '))]. *)
Class JsonModule : Type := {
  json : Type;
  json_loads : string -> outcome json;
  json_dumps : json -> string
}.

Definition opens_json (s : string) : bool :=
  startswith "{" s || startswith "[" s.

(** The regular expression of [fix_json], matched with [re.MULTILINE] and
    [re.DOTALL] from the start of the sample: any characters (greedy, line
    ends included), then at the start of a line the group, which is an
    opening brace or bracket followed by everything up to the end of the
    input.  The greedy prefix leaves the group the last place that fits.
    [bol] tells whether [s] starts a line. *)
Fixpoint last_json_line (bol : bool) (s : string) : option string :=
  match s with
  | EmptyString => None
  | String c s' =>
      match last_json_line (Ascii.eqb c LF) s' with
      | Some g => Some g
      | None => if bol && opens_json s then Some s else None
      end
  end.

(** [match.group(1)] when the expression matches *)
Definition match_json_tail (s : string) : option string := last_json_line true s.

(** [bool(s)] of a string *)
Definition truthy (s : string) : bool := negb (String.eqb s EmptyString).

Section Converter.
Context `{JsonModule}.
Variable options : Options.

(** [fix_json(json_sample)] *)
Definition fix_json (json_sample : string) : outcome string :=
  match json_loads json_sample with
  | Ok _ => Ok json_sample
  | Raise (ValueError msg) =>
      if autofix options then
        match match_json_tail json_sample with
        | Some group1 => _ ← json_loads group1; Ok group1
        | None => Ok json_sample
        end
      else Raise (ValueError msg)
  | Raise e => Raise e
  end.

(** [build_code_sample(wadl_code_sample)]; the bare [except] swallows
    every failure. *)
Definition build_code_sample (wadl_code_sample : string) : odict :=
  match json_loads wadl_code_sample with
  | Ok data => [(KStr "application/json", VFolded (json_dumps data))]
  | Raise _ => []
  end.

(** [build_response(wadl_response)]: the documentation text with its
    blanks normalised, or the fallback built from the [status] attribute. *)
Definition build_response (wadl_response : SourceResponse) : outcome odict :=
  match resp_status wadl_response with
  | None => Raise (KeyError "status")
  | Some status =>
      let description :=
        match resp_doc_text wadl_response with
        | Some text => join " " (split_ws text)
        | None => (status ++ " response")%string
        end in
      Ok [(KStr "description", VFolded description)]
  end.

(** [build_summary(method)]; without a documentation title the lookup
    fails. *)
Definition build_summary (method : SourceMethod) : outcome string :=
  match meth_title method with
  | Some title => Ok title
  | None => Raise (KeyError "title")
  end.

Variable wadl_file : string.

(** The code sample of a response, when it has one: the text of the last
    block after [fix_json], or the text as it stands when [fix_json]
    raised a [ValueError] and the converter is not strict. *)
Definition response_code_sample (summary : string) (response : SourceResponse)
  : outcome (option string) :=
  match last (resp_code_samples response) with
  | None => Ok None
  | Some None => Raise (TypeError "expected string or buffer")
  | Some (Some text) =>
      match fix_json text with
      | Ok fixed => Ok (Some fixed)
      | Raise (ValueError msg) =>
          if strict options
          then Raise (WADLParseError "Unparsable code sample" wadl_file summary
                        (ValueError msg))
          else Ok (Some text)
      | Raise e => Raise e
      end
  end.

(** The body of [for status in statuses], on the [responses] mapping of
    the operation. *)
Definition convert_status (summary : string) (response : SourceResponse)
  (responses : odict) (status : string) : outcome odict :=
  swagger_response ← build_response response;
  code ← py_int status;
  let responses := dict_set (KInt code) (VDict swagger_response) responses in
  code_sample ← response_code_sample summary response;
  match code_sample with
  | Some sample =>
      if truthy sample then
        let swagger_response :=
          dict_set (KStr "examples") (VDict (build_code_sample sample))
            swagger_response in
        Ok (dict_set (KInt code) (VDict swagger_response) responses)
      else Ok responses
  | None => Ok responses
  end.

(** [statuses = response.tag.attrib['status'].split()] *)
Definition response_statuses (response : SourceResponse) : outcome (list string) :=
  match resp_status response with
  | Some status => Ok (split_ws status)
  | None => Raise (BadWADLError "Response has no status" (KeyError "status") wadl_file)
  end.

(** [if method.response.tag is not None: ...], on the operation. *)
Definition convert_response (summary : string) (response : SourceResponse)
  (swagger_method : odict) : outcome odict :=
  let swagger_method :=
    match resp_json_media_type response with
    | Some media_type => dict_set (KStr "produces") (VList [VStr media_type]) swagger_method
    | None => swagger_method
    end in
  statuses ← response_statuses response;
  responses ← for_each (convert_status summary response) statuses [];
  Ok (dict_set (KStr "responses") (VDict responses) swagger_method).

(** The body of [for method in resource.method_iter], on the path item. *)
Definition convert_method (swagger_resource : odict) (method : SourceMethod)
  : outcome odict :=
  let verb :=
    if autofix options && String.eqb (meth_name method) "copy" then "put"
    else meth_name method in
  let swagger_method : odict :=
    match meth_rax_id method with
    | Some id => [(KStr "operationId", VStr id)]
    | None => []
    end in
  summary ← build_summary method;
  let swagger_method := dict_set (KStr "summary") (VStr summary) swagger_method in
  let swagger_method :=
    match meth_short_desc method with
    | Some description => dict_set (KStr "description") (VFolded description) swagger_method
    | None => swagger_method
    end in
  let swagger_method := dict_set (KStr "produces") (VList []) swagger_method in
  let swagger_method := dict_set (KStr "responses") (VDict []) swagger_method in
  params ←
    match meth_request method with
    | Some representations =>
        for_each (fun acc ps => build_params options ps acc) representations []
    | None => Ok []
    end;
  let swagger_method := set_parameters params swagger_method in
  swagger_method ←
    match meth_response method with
    | Some response => convert_response summary response swagger_method
    | None => Ok swagger_method
    end;
  Ok (dict_set (KStr verb) (VDict swagger_method) swagger_resource).

(** The body of [for resource_element in wadl.resources], on [paths].
    Nothing in [build_param] raises an [AttributeError], so the handler
    around the resource parameters is never entered. *)
Definition convert_resource (paths : odict) (resource : SourceResource)
  : outcome odict :=
  let path := res_path resource in
  let path :=
    if autofix options && negb (startswith "/" path) then String "/" path
    else path in
  let params := default [] (res_json_params resource) ++ res_tag_params resource in
  swagger_params ← build_params options params [];
  let swagger_resource := set_parameters swagger_params [] in
  swagger_resource ← for_each convert_method (res_methods resource) swagger_resource;
  Ok (dict_set (KStr path) (VDict swagger_resource) paths).

Definition json_only : value := VList [VStr "application/json"].

(** The document before the resources are walked: [swagger], [info],
    [consumes] and [produces]; each [try] is left at the first missing
    key of [defaults]. *)
Definition seed (title : string) (defaults : odict) : odict :=
  let swagger : odict := [(KStr "swagger", VStr "2.0"); (KStr "info", VDict [])] in
  let swagger :=
    match dict_get (KStr "info") defaults with
    | Some info => dict_set (KStr "info") info swagger
    | None =>
        dict_set (KStr "info")
          (VDict [(KStr "title", VStr title); (KStr "version", VStr "Unknown")])
          swagger
    end in
  match dict_get (KStr "consumes") defaults with
  | Some consumes =>
      let swagger := dict_set (KStr "consumes") consumes swagger in
      match dict_get (KStr "produces") defaults with
      | Some produces => dict_set (KStr "produces") produces swagger
      | None =>
          dict_set (KStr "produces") json_only
            (dict_set (KStr "consumes") json_only swagger)
      end
  | None =>
      dict_set (KStr "produces") json_only
        (dict_set (KStr "consumes") json_only swagger)
  end.

(** [convert(title, wadl_file, swagger_file)].  [defaults] is what
    [default_swagger_dict(swagger_file)] loaded and [resources] what
    [WADL.application_for(wadl_file)] lists; neither call is modelled, and
    no modelled step raises a [WADLError], so the outer handler passes
    every outcome on. *)
Definition convert (title : string) (defaults : odict)
  (resources : list SourceResource) : outcome odict :=
  let swagger := seed title defaults in
  paths ← for_each convert_resource resources [];
  let swagger := dict_set (KStr "paths") (VDict paths) swagger in
  merge_result (merge_dicts swagger defaults []).

End Converter.

(** ** A decoder and printer for the examples *)

(** An implementation of the [json] interface to run the converter on
    concrete samples.  [loads] accepts the grammar of CPython 2.7's decoder
    (leading and trailing blanks, [NaN] and the infinities, no control
    character inside a string, nothing after the value).  The data keeps
    what the printer needs: strings as code units, integers as numbers, a
    number with a fraction or an exponent as it was written, the members of
    an object in the order read. *)
Module PyJson.

Inductive jvalue : Type :=
| JNull
| JBool (b : bool)
| JInt (z : Z)
| JFloat (literal : string)
| JString (units : list N)
| JArray (items : list jvalue)
| JObject (members : list (list N * jvalue)).

Definition is_json_space (c : ascii) : bool :=
  match Ascii.nat_of_ascii c with
  | 9%nat | 10%nat | 13%nat | 32%nat => true
  | _ => false
  end.

Fixpoint skip_ws (s : string) : string :=
  match s with
  | String c s' => if is_json_space c then skip_ws s' else s
  | EmptyString => s
  end.

Definition hex_of (c : ascii) : option N :=
  let n := Ascii.N_of_ascii c in
  if (48 <=? n)%N && (n <=? 57)%N then Some (n - 48)%N
  else if (65 <=? n)%N && (n <=? 70)%N then Some (n - 55)%N
  else if (97 <=? n)%N && (n <=? 102)%N then Some (n - 87)%N
  else None.

Definition simple_escape (c : ascii) : option N :=
  match Ascii.nat_of_ascii c with
  | 34%nat => Some 34%N   (* quote *)
  | 92%nat => Some 92%N   (* backslash *)
  | 47%nat => Some 47%N   (* slash *)
  | 98%nat => Some 8%N    (* b *)
  | 102%nat => Some 12%N  (* f *)
  | 110%nat => Some 10%N  (* n *)
  | 114%nat => Some 13%N  (* r *)
  | 116%nat => Some 9%N   (* t *)
  | _ => None
  end.

(** The rest of a string literal, after its opening quote. *)
Fixpoint scan_string (s : string) : option (list N * string) :=
  match s with
  | EmptyString => None
  | String c rest =>
      if Ascii.eqb c DQUOTE then Some ([], rest)
      else if Ascii.eqb c "\" then
        match rest with
        | String "u" (String h1 (String h2 (String h3 (String h4 rest')))) =>
            match hex_of h1, hex_of h2, hex_of h3, hex_of h4 with
            | Some a, Some b, Some c, Some d =>
                '(us, r) ← scan_string rest';
                Some ((((a * 16 + b) * 16 + c) * 16 + d)%N :: us, r)
            | _, _, _, _ => None
            end
        | String e rest' =>
            u ← simple_escape e;
            '(us, r) ← scan_string rest';
            Some (u :: us, r)
        | EmptyString => None
        end
      else if (Ascii.N_of_ascii c <? 32)%N then None
      else '(us, r) ← scan_string rest; Some (Ascii.N_of_ascii c :: us, r)
  end.

(** The longest prefix of decimal digits, and what follows it. *)
Fixpoint span_digits (s : string) : string * string :=
  match s with
  | String c s' =>
      match digit_of c with
      | Some _ => let '(ds, r) := span_digits s' in (String c ds, r)
      | None => (EmptyString, s)
      end
  | EmptyString => (EmptyString, s)
  end.

(** A number: an integer part without a leading zero, then a fraction and
    an exponent when they are complete. *)
Definition scan_number (s : string) : option (jvalue * string) :=
  let '(sign, body) :=
    match s with
    | String "-" t => ("-", t)
    | _ => (EmptyString, s)
    end in
  let '(ds, r) := span_digits body in
  let '(int_part, r) :=
    match ds with
    | String "0" more => ("0", (more ++ r)%string)
    | _ => (ds, r)
    end in
  if String.eqb int_part EmptyString then None
  else
    let '(frac, r) :=
      match r with
      | String "." t =>
          let '(fs, r') := span_digits t in
          if String.eqb fs EmptyString then (EmptyString, r)
          else (String "." fs, r')
      | _ => (EmptyString, r)
      end in
    let '(expo, r) :=
      match r with
      | String e t =>
          if Ascii.eqb e "e" || Ascii.eqb e "E" then
            let '(sg, t') :=
              match t with
              | String "+" u => ("+", u)
              | String "-" u => ("-", u)
              | _ => (EmptyString, t)
              end in
            let '(es, r') := span_digits t' in
            if String.eqb es EmptyString then (EmptyString, r)
            else ((String e sg ++ es)%string, r')
          else (EmptyString, r)
      | _ => (EmptyString, r)
      end in
    if String.eqb frac EmptyString && String.eqb expo EmptyString then
      match digits_from 0 int_part with
      | Some n => Some (JInt (if String.eqb sign "-" then - n else n), r)
      | None => None
      end
    else Some (JFloat (sign ++ int_part ++ frac ++ expo)%string, r).

(** [strip_prefix p s] is what follows [p] in [s]. *)
Fixpoint strip_prefix (p s : string) : option string :=
  match p, s with
  | EmptyString, _ => Some s
  | String a p', String b s' => if Ascii.eqb a b then strip_prefix p' s' else None
  | _, _ => None
  end.

Definition scan_constant (s : string) : option (jvalue * string) :=
  match strip_prefix "null" s, strip_prefix "true" s, strip_prefix "false" s with
  | Some r, _, _ => Some (JNull, r)
  | _, Some r, _ => Some (JBool true, r)
  | _, _, Some r => Some (JBool false, r)
  | _, _, _ =>
      match strip_prefix "NaN" s, strip_prefix "Infinity" s, strip_prefix "-Infinity" s with
      | Some r, _, _ => Some (JFloat "NaN", r)
      | _, Some r, _ => Some (JFloat "Infinity", r)
      | _, _, Some r => Some (JFloat "-Infinity", r)
      | _, _, _ => None
      end
  end.

(** The members of an object are stored like the entries of a [dict]: a
    name read twice keeps its first place and its last value. *)
Fixpoint set_member (k : list N) (v : jvalue) (ms : list (list N * jvalue))
  : list (list N * jvalue) :=
  match ms with
  | [] => [(k, v)]
  | (k', v') :: ms' =>
      if bool_decide (k = k') then (k', v) :: ms' else (k', v') :: set_member k v ms'
  end.

(** One value at the head of [s]; [fuel] bounds the nesting and the
    number of items together. *)
Fixpoint scan_value (fuel : nat) (s : string) : option (jvalue * string) :=
  match fuel with
  | O => None
  | S fuel' =>
      match s with
      | String "{" rest =>
          match skip_ws rest with
          | String "}" rest' => Some (JObject [], rest')
          | rest' => scan_members fuel' [] rest'
          end
      | String "[" rest =>
          match skip_ws rest with
          | String "]" rest' => Some (JArray [], rest')
          | rest' => scan_items fuel' [] rest'
          end
      | String c rest =>
          if Ascii.eqb c DQUOTE then
            '(us, r) ← scan_string rest; Some (JString us, r)
          else
            match scan_number s with
            | Some res => Some res
            | None => scan_constant s
            end
      | EmptyString => None
      end
  end
with scan_items (fuel : nat) (acc : list jvalue) (s : string)
  : option (jvalue * string) :=
  match fuel with
  | O => None
  | S fuel' =>
      '(v, r) ← scan_value fuel' s;
      match skip_ws r with
      | String "," r' => scan_items fuel' (acc ++ [v]) (skip_ws r')
      | String "]" r' => Some (JArray (acc ++ [v]), r')
      | _ => None
      end
  end
with scan_members (fuel : nat) (acc : list (list N * jvalue)) (s : string)
  : option (jvalue * string) :=
  match fuel with
  | O => None
  | S fuel' =>
      match s with
      | String c rest =>
          if Ascii.eqb c DQUOTE then
            '(k, r) ← scan_string rest;
            match skip_ws r with
            | String ":" r' =>
                '(v, r'') ← scan_value fuel' (skip_ws r');
                match skip_ws r'' with
                | String "," r3 => scan_members fuel' (set_member k v acc) (skip_ws r3)
                | String "}" r3 => Some (JObject (set_member k v acc), r3)
                | _ => None
                end
            | _ => None
            end
          else None
      | EmptyString => None
      end
  end.

Definition loads (s : string) : outcome jvalue :=
  match scan_value (2 * String.length s + 2) (skip_ws s) with
  | Some (v, rest) =>
      match skip_ws rest with
      | EmptyString => Ok v
      | _ => Raise (ValueError "Extra data")
      end
  | None => Raise (ValueError "No JSON object could be decoded")
  end.

(** *** Printing with [indent=4] and [separators=(',', ': ')] *)

Definition hex_digit (n : N) : ascii :=
  Ascii.ascii_of_N (if (n <? 10)%N then n + 48 else n + 87)%N.

Definition escape_unit (u : N) : string :=
  if (u =? 34)%N then String "\" (String DQUOTE EmptyString)
  else if (u =? 92)%N then "\\"
  else if (u =? 10)%N then "\n"
  else if (u =? 13)%N then "\r"
  else if (u =? 9)%N then "\t"
  else if (u =? 12)%N then "\f"
  else if (u =? 8)%N then "\b"
  else if (32 <=? u)%N && (u <=? 126)%N then String (Ascii.ascii_of_N u) EmptyString
  else String "\" (String "u"
         (String (hex_digit (u / 4096 mod 16)) (String (hex_digit (u / 256 mod 16))
         (String (hex_digit (u / 16 mod 16)) (String (hex_digit (u mod 16))
          EmptyString)))))%N.

Definition quote (us : list N) : string :=
  String DQUOTE (String.concat EmptyString (map escape_unit us) ++ String DQUOTE EmptyString).

Fixpoint spaces (n : nat) : string :=
  match n with
  | O => EmptyString
  | S n' => String " " (spaces n')
  end.

Definition newline_indent (level : nat) : string := String LF (spaces (4 * level)).

Fixpoint encode (level : nat) (j : jvalue) : string :=
  match j with
  | JNull => "null"
  | JBool true => "true"
  | JBool false => "false"
  | JInt z => pretty z
  | JFloat literal => literal
  | JString us => quote us
  | JArray [] => "[]"
  | JArray items =>
      "[" ++ newline_indent (S level)
      ++ String.concat ("," ++ newline_indent (S level)) (map (encode (S level)) items)
      ++ newline_indent level ++ "]"
  | JObject [] => "{}"
  | JObject members =>
      "{" ++ newline_indent (S level)
      ++ String.concat ("," ++ newline_indent (S level))
           (map (fun m => quote m.1 ++ ": " ++ encode (S level) m.2) members)
      ++ newline_indent level ++ "}"
  end%string.

Definition dumps (j : jvalue) : string := encode 0 j.

#[export] Instance module : JsonModule :=
  {| json := jvalue; json_loads := loads; json_dumps := dumps |}.

End PyJson.

(** ** Notions used to state the properties of merge_dicts *)

(** The value found by following the keys of [p] from [d]. *)
Fixpoint lookup_path (d : odict) (p : list key) : option value :=
  match p with
  | [] => None
  | [k] => dict_get k d
  | k :: p' =>
      match dict_get k d with
      | Some (VDict d') => lookup_path d' p'
      | _ => None
      end
  end.

(** [a'] extends [a]: every leaf of [a] is in [a'] at the same place with
    the same value, and every mapping of [a] is still a mapping. *)
Definition extends (a' a : odict) : Prop :=
  forall p v, lookup_path a p = Some v ->
    exists v', lookup_path a' p = Some v' /\
               if is_dict v then is_dict v' = true else v' = v.


(** No key occurs twice in a mapping, at any depth: an invariant of every
    Python dictionary. *)
Fixpoint unique_keys_in (v : value) : bool :=
  match v with
  | VDict d =>
      (fix go (d : odict) : bool :=
         match d with
         | [] => true
         | (k, x) :: d' =>
             negb (existsb (key_eqb k) (keys d')) && unique_keys_in x && go d'
         end) d
  | _ => true
  end.

Definition unique_keys (d : odict) : bool := unique_keys_in (VDict d).




(** A measure for inductions that go into the nested mappings. *)
Fixpoint value_size (v : value) : nat :=
  match v with
  | VDict d =>
      S ((fix go (d : odict) : nat :=
            match d with
            | [] => O
            | (_, x) :: d' => (value_size x + go d')%nat
            end) d)
  | _ => 1%nat
  end.

Definition dict_size (d : odict) : nat := value_size (VDict d).

(** The object store after dictionaries have grown: the same objects, every
    entry still there with the value it had. *)
Definition grows (h h' : Store.store) : Prop :=
  dom h' = dom h /\
  forall l d, h !! l = Some d ->
    exists d', h' !! l = Some d' /\
               forall k v, dict_get k d = Some v -> dict_get k d' = Some v.

(** ** Notions used to relate the two models of merge_dicts *)

(** Entries with the same key and related values. *)
Definition entry_rel {A B} (P : A -> B -> Prop) (e : key * A) (e' : key * B) : Prop :=
  e.1 = e'.1 /\ P e.2 e'.2.

(** The slot [sv] of the store [h] holds the value [t], read through
    objects of [D] only. *)
Inductive repr (h : Store.store) (D : gset Store.loc) : Store.sval -> value -> Prop :=
| repr_leaf x : is_dict x = false -> repr h D (Store.SVal x) x
| repr_dict l o d :
    l ∈ D -> h !! l = Some o -> Forall2 (entry_rel (repr h D)) o d ->
    repr h D (Store.SRef l) (VDict d).

(** The slot [sv] holds [t] as a tree of its own: the objects [F] it is
    made of are reached by one way only. *)
Inductive own (h : Store.store) : gset Store.loc -> Store.sval -> value -> Prop :=
| own_leaf x : is_dict x = false -> own h ∅ (Store.SVal x) x
| own_dict l o d F :
    l ∉ F -> h !! l = Some o -> own_items h F o d ->
    own h ({[l]} ∪ F) (Store.SRef l) (VDict d)
with own_items (h : Store.store) : gset Store.loc -> Store.obj -> odict -> Prop :=
| own_nil : own_items h ∅ [] []
| own_cons k sv t o d F1 F2 :
    own h F1 sv t -> own_items h F2 o d -> F1 ## F2 ->
    own_items h (F1 ∪ F2) ((k, sv) :: o) ((k, t) :: d).

Scheme own_mut := Minimality for own Sort Prop
  with own_items_mut := Minimality for own_items Sort Prop.
Combined Scheme own_mutind from own_mut, own_items_mut.

(** The entries of the generated mapping while the loop runs: each is read
    through its own objects and those of the defaults [B]; the entries
    whose keys are still to come ([P]) are trees of their own. *)
Inductive mixed (h : Store.store) (B : gset Store.loc) (P : list key)
  : gset Store.loc -> Store.obj -> odict -> Prop :=
| mixed_nil F : mixed h B P F [] []
| mixed_cons k sv t o d F1 F2 F :
    repr h (F1 ∪ B) sv t -> (k ∈ P -> own h F1 sv t) ->
    mixed h B P F2 o d -> F1 ## F2 -> F1 ∪ F2 ⊆ F ->
    mixed h B P F ((k, sv) :: o) ((k, t) :: d).

(** The outcome of the call on the store for the outcome on mappings. *)
Definition lift (a : Store.loc) (r : outcome unit) : outcome Store.loc :=
  match r with
  | Ok _ => Ok a
  | Raise e => Raise e
  end.

(** ** Notions used to state the properties of responses *)

(** The description [build_response] gives a response whose [status]
    attribute is [attr]. *)
Definition response_description (response : SourceResponse) (attr : string) : string :=
  match resp_doc_text response with
  | Some text => join " " (split_ws text)
  | None => (attr ++ " response")%string
  end.

(** [responses] has, under [code], a response object with that description. *)
Definition described (response : SourceResponse) (attr : string)
  (responses : odict) (code : Z) : Prop :=
  exists swagger_response,
    dict_get (KInt code) responses = Some (VDict swagger_response) /\
    dict_get (KStr "description") swagger_response
      = Some (VFolded (response_description response attr)).


(** The response object of a status whose code sample decoded to [data]. *)
Definition sampled_response `{JsonModule} (response : SourceResponse) (attr : string)
  (data : json) : odict :=
  [ (KStr "description", VFolded (response_description response attr));
    (KStr "examples", VDict [(KStr "application/json", VFolded (json_dumps data))]) ].

(** ** Samples for the examples *)

Definition in_quotes (s : string) : string :=
  String DQUOTE (s ++ String DQUOTE EmptyString)%string.

(** The object with the one member [id], 1, as a sample writes it and as
    [json.dumps] prints it. *)
Definition sample_object : string := ("{" ++ in_quotes "id" ++ ":1}")%string.
Definition sample_object_pretty : string :=
  ("{" ++ String LF ("    " ++ in_quotes "id" ++ ": 1" ++ String LF "}"))%string.

(** The sample of the specification: a header line before the object. *)
Definition sample_under_header : string :=
  ("X-Auth: abc" ++ String LF sample_object)%string.

(** An array written over several lines, its items flush left, under a
    header line. *)
Definition sample_array_last_line : string :=
  ("{" ++ in_quotes "a" ++ ":1}" ++ String LF "]")%string.
Definition sample_array : string := ("[" ++ String LF sample_array_last_line)%string.
Definition sample_array_under_header : string := ("H" ++ String LF sample_array)%string.

(** [header] ends where a line starts, [bol] telling whether the text it
    is cut from starts one. *)
Definition starts_line (bol : bool) (header : string) : Prop :=
  (header = EmptyString /\ bol = true) \/
  exists b, header = (b ++ String LF EmptyString)%string.

(** An API with one resource and one method, whose response carries one
    code sample. *)
Definition response_with_sample (text : string) : SourceResponse :=
  {| resp_status := Some "200"; resp_doc_text := None;
     resp_json_media_type := Some "application/json";
     resp_code_samples := [Some text] |}.

Definition list_servers (text : string) : SourceMethod :=
  {| meth_name := "get"; meth_rax_id := None; meth_title := Some "List servers";
     meth_short_desc := None; meth_request := None;
     meth_response := Some (response_with_sample text) |}.

Definition servers_resource (text : string) : SourceResource :=
  {| res_path := "/servers"; res_json_params := None; res_tag_params := [];
     res_methods := [list_servers text] |}.

Definition one_method_api (text : string) : list SourceResource :=
  [servers_resource text].

(** The start of a line: the start of the text, or just after a line feed. *)
Definition line_start (before : string) : Prop :=
  before = EmptyString \/ exists b, before = (b ++ String LF EmptyString)%string.

(** [tail] is the part of [sample] from the last line on that starts with
    an opening brace or bracket. *)
Definition last_json_line_of (sample tail : string) : Prop :=
  exists header,
    sample = (header ++ tail)%string /\ line_start header /\ opens_json tail = true /\
    forall header' tail',
      sample = (header' ++ tail')%string -> line_start header' ->
      opens_json tail' = true ->
      (String.length header' <= String.length header)%nat.

(** The reading the specification gives of the same step: what is left of
    the sample from its first opening brace or bracket on. *)
Fixpoint from_first_opening (s : string) : option string :=
  match s with
  | EmptyString => None
  | String c s' => if opens_json s then Some s else from_first_opening s'
  end.

(** ** Notions used to state the properties of the walk *)

(** The key of [paths] a resource is written under. *)
Definition swagger_path (options : Options) (resource : SourceResource) : string :=
  let path := res_path resource in
  if autofix options && negb (startswith "/" path) then String "/" path else path.

(** The key of a path item a method is written under. *)
Definition swagger_verb (options : Options) (method : SourceMethod) : string :=
  if autofix options && String.eqb (meth_name method) "copy" then "put"
  else meth_name method.

(** The keys [convert] writes itself, in the order it writes them. *)
Definition generated_keys : list key :=
  [KStr "swagger"; KStr "info"; KStr "consumes"; KStr "produces"; KStr "paths"].

(** What [merge_dicts] leaves in [a] for a value [v] of [b]: a mapping for
    a mapping; for a leaf the leaf itself or the equal value [a] had. *)
Definition brought (v' v : value) : Prop :=
  if is_dict v then is_dict v' = true else v' = v \/ py_eq v' v = true.

(** ** Notions used to state the properties of parameters *)

(** The styles [style_to_in] knows. *)
Definition styles : list string := ["matrix"; "query"; "header"; "template"; "plain"].

(** The names of the JSON types of the type table. *)
Definition json_types : list string := ["boolean"; "integer"; "number"; "string"].

(** The entries a type of the table, or a type name, adds to a parameter
    ([param.update] goes through a fragment in the order of [typemap]). *)
Definition type_entries (json_type : value) : odict :=
  match json_type with
  | VDict fragment => fragment
  | _ => [(KStr "type", json_type)]
  end.

(** The type [build_param] settles on, [mapped] being the answer of the
    type mapper. *)
Definition settled_type (options : Options) (wadl_type : string) (mapped : option value)
  : value :=
  match mapped with
  | Some t => t
  | None => if autofix options then VStr "string" else VStr wadl_type
  end.

(** The [description] entry of a parameter. *)
Definition doc_entries (options : Options) (p : SourceParameter) : odict :=
  if nodoc options then []
  else match param_doc p with
       | Some description => [(KStr "description", VFolded description)]
       | None => []
       end.

(** Whether [build_param] leaves a parameter out. *)
Definition dropped (options : Options) (p : SourceParameter) : bool :=
  autofix options && String.eqb (param_style p) "plain".

(** ** The defaults file *)

(** [default_swagger_dict] on a POSIX system; what it returns is the
    [defaults] of [convert].  The file system enters as the two functions
    the code calls. *)

(** [s.rfind(c)], as the texts before and after the last [c] of [s]. *)
Fixpoint rsplit_char (c : ascii) (s : string) : option (string * string) :=
  match s with
  | EmptyString => None
  | String c' s' =>
      match rsplit_char c s' with
      | Some (before, after) => Some (String c' before, after)
      | None => if Ascii.eqb c' c then Some (EmptyString, s') else None
      end
  end.

(** [os.path.split(p)[1]] on a POSIX system: what follows the last slash. *)
Definition path_tail (p : string) : string :=
  match rsplit_char "/" p with
  | Some (_, tail) => tail
  | None => p
  end.

Fixpoint all_dots (s : string) : bool :=
  match s with
  | EmptyString => true
  | String c s' => Ascii.eqb c "." && all_dots s'
  end.

(** [os.path.splitext(p)]: the extension starts at the last dot of the
    last component, unless only dots come before it there. *)
Definition splitext (p : string) : string * string :=
  let '(dir, name) :=
    match rsplit_char "/" p with
    | Some (d, n) => ((d ++ "/")%string, n)
    | None => (EmptyString, p)
    end in
  match rsplit_char "." name with
  | Some (stem, ext) =>
      if all_dots stem then (p, EmptyString)
      else ((dir ++ stem)%string, String "." ext)
  | None => (p, EmptyString)
  end.

Fixpoint endswith (c : ascii) (s : string) : bool :=
  match s with
  | EmptyString => false
  | String c' EmptyString => Ascii.eqb c' c
  | String _ s' => endswith c s'
  end.

(** [os.path.join(a, b)] *)
Definition path_join (a b : string) : string :=
  if startswith "/" b then b
  else if String.eqb a EmptyString || endswith "/" a then (a ++ b)%string
  else (a ++ "/" ++ b)%string.

(** The [merge_file] of [default_swagger_dict]. *)
Definition merge_file (options : Options) (swagger_file : string) : string :=
  let filename := (splitext (path_tail swagger_file)).1 in
  path_join (merge_dir options) (filename ++ ".yaml")%string.

Section Defaults.
(** [os.path.isfile], and [OrderedDict(yaml.load(stream))] on the file of
    that name. *)
Variable isfile : string -> bool.
Variable load_yaml : string -> outcome odict.

Definition default_swagger_dict (options : Options) (swagger_file : string)
  : outcome odict :=
  if isfile (merge_file options swagger_file)
  then load_yaml (merge_file options swagger_file)
  else Ok [].
End Defaults.

(** * Properties *)

(** ** Dictionaries *)

Lemma key_eqb_eq k1 k2 : key_eqb k1 k2 = true <-> k1 = k2.
Proof.
  destruct k1, k2; simpl; split; intros E; try discriminate; try congruence.
  - apply String.eqb_eq in E. congruence.
  - inversion E. apply String.eqb_refl.
  - apply Z.eqb_eq in E. congruence.
  - inversion E. apply Z.eqb_refl.
Qed.

Lemma key_eqb_refl k : key_eqb k k = true.
Proof. by apply key_eqb_eq. Qed.

Lemma key_eqb_neq k1 k2 : key_eqb k1 k2 = false <-> k1 <> k2.
Proof.
  rewrite <- key_eqb_eq. destruct (key_eqb k1 k2); split; congruence.
Qed.

Lemma key_eqb_sym k1 k2 : key_eqb k1 k2 = key_eqb k2 k1.
Proof.
  destruct (key_eqb k2 k1) eqn:E.
  - apply key_eqb_eq in E as ->. apply key_eqb_refl.
  - apply key_eqb_neq. apply key_eqb_neq in E. congruence.
Qed.

Section dict_facts.
Context {V : Type}.
Implicit Types (d : list (key * V)) (k : key) (v : V).

Lemma dict_get_set_eq k v d : dict_get k (dict_set k v d) = Some v.
Proof.
  induction d as [|[k' v'] d IH]; simpl.
  - by rewrite key_eqb_refl.
  - destruct (key_eqb k k') eqn:E; simpl; rewrite E; done.
Qed.

Lemma dict_get_set_ne k k' v d :
  k <> k' -> dict_get k' (dict_set k v d) = dict_get k' d.
Proof.
  intros Hne. induction d as [|[k0 v0] d IH]; simpl.
  - apply key_eqb_neq in Hne. by rewrite key_eqb_sym, Hne.
  - destruct (key_eqb k k0) eqn:E; simpl.
    + apply key_eqb_eq in E as <-.
      assert (key_eqb k' k = false) as -> by (apply key_eqb_neq; congruence).
      done.
    + by rewrite IH.
Qed.



Lemma dict_set_set k v1 v2 d : dict_set k v2 (dict_set k v1 d) = dict_set k v2 d.
Proof.
  induction d as [|[k' v'] d IH]; simpl.
  - by rewrite key_eqb_refl.
  - destruct (key_eqb k k') eqn:E; simpl; rewrite E; [done|]. by rewrite IH.
Qed.

Lemma keys_dict_set_in k v d :
  is_Some (dict_get k d) -> keys (dict_set k v d) = keys d.
Proof.
  induction d as [|[k' v'] d IH]; simpl.
  - by intros [? ?].
  - destruct (key_eqb k k') eqn:E; simpl; [done|].
    intros Hs. f_equal. by apply IH.
Qed.

Lemma dict_get_Some_keys k v d : dict_get k d = Some v -> k ∈ keys d.
Proof.
  induction d as [|[k' v'] d IH]; simpl; [done|].
  destruct (key_eqb k k') eqn:E.
  - apply key_eqb_eq in E as ->. intros _. apply list_elem_of_here.
  - intros Hg. apply list_elem_of_further. by apply IH.
Qed.

Lemma dict_get_None_keys k d : dict_get k d = None <-> k ∉ keys d.
Proof.
  induction d as [|[k' v'] d IH]; simpl.
  - split; [intros _; apply not_elem_of_nil | done].
  - destruct (key_eqb k k') eqn:E.
    + apply key_eqb_eq in E as ->. split; [done|].
      intros Hn. exfalso. apply Hn. apply list_elem_of_here.
    + apply key_eqb_neq in E. rewrite IH, not_elem_of_cons. tauto.
Qed.
End dict_facts.

(** ** merge_dicts on nested mappings *)

Lemma merge_dicts_nil a path : merge_dicts a [] path = (a, Ok ()).
Proof. reflexivity. Qed.

(** One turn of the loop [for key in b]. *)
Lemma merge_dicts_cons a k vb b path :
  merge_dicts a ((k, vb) :: b) path =
  match dict_get k a with
  | Some va =>
      match va, vb with
      | VDict da, VDict db =>
          let '(da', r) := merge_dicts da db (path ++ [key_str k]) in
          match r with
          | Ok _ => merge_dicts (dict_set k (VDict da') a) b path
          | Raise e => (dict_set k (VDict da') a, Raise e)
          end
      | _, _ =>
          if py_eq va vb then merge_dicts a b path
          else (a, Raise (conflict (path ++ [key_str k])))
      end
  | None => merge_dicts (dict_set k vb a) b path
  end.
Proof.
  unfold merge_dicts. simpl.
  destruct (dict_get k a) as [va|]; [|done].
  destruct va, vb; try done.
Qed.

Lemma dict_size_cons k v d :
  dict_size ((k, v) :: d) = (value_size v + dict_size d)%nat.
Proof. unfold dict_size. simpl. lia. Qed.

Lemma value_size_pos v : (0 < value_size v)%nat.
Proof. destruct v; simpl; lia. Qed.

(** Induction on a mapping that reaches the mappings nested in it. *)
Lemma odict_nested_ind (P : odict -> Prop) :
  P [] ->
  (forall k v b, (forall d, v = VDict d -> P d) -> P b -> P ((k, v) :: b)) ->
  forall b, P b.
Proof.
  intros Hnil Hcons b.
  remember (dict_size b) as n eqn:Hn.
  revert b Hn. induction n as [n IH] using lt_wf_ind. intros b ->.
  destruct b as [|[k v] b]; [done|].
  apply Hcons.
  - intros d ->. eapply IH; [|done]. rewrite dict_size_cons.
    unfold dict_size. pose proof (value_size_pos (VDict b)). lia.
  - eapply IH; [|done]. rewrite dict_size_cons.
    pose proof (value_size_pos v). lia.
Qed.

(** The three ways a turn of the loop can go. *)
Lemma merge_dicts_cases a k vb b path :
  (dict_get k a = None /\
   merge_dicts a ((k, vb) :: b) path = merge_dicts (dict_set k vb a) b path) \/
  (exists da db, dict_get k a = Some (VDict da) /\ vb = VDict db /\
     merge_dicts a ((k, vb) :: b) path =
     let '(da', r) := merge_dicts da db (path ++ [key_str k]) in
     match r with
     | Ok _ => merge_dicts (dict_set k (VDict da') a) b path
     | Raise e => (dict_set k (VDict da') a, Raise e)
     end) \/
  (exists va, dict_get k a = Some va /\ is_dict va && is_dict vb = false /\
     merge_dicts a ((k, vb) :: b) path =
     if py_eq va vb then merge_dicts a b path
     else (a, Raise (conflict (path ++ [key_str k])))).
Proof.
  rewrite merge_dicts_cons. destruct (dict_get k a) as [va|]; [|by left].
  right. destruct (is_dict va && is_dict vb) eqn:Hd.
  - left. destruct va, vb; try discriminate. by eexists _, _.
  - right. exists va. split_and!; [done..|].
    destruct va, vb; try discriminate; done.
Qed.

Lemma py_eq_dict_leaf va vb :
  is_dict va && is_dict vb = false -> is_dict va || is_dict vb = true ->
  py_eq va vb = false.
Proof. destruct va, vb; simpl; try discriminate; done. Qed.

(** *** Paths and extension *)

Lemma lookup_path_cons d k p :
  p <> [] ->
  lookup_path d (k :: p) =
  match dict_get k d with
  | Some (VDict d') => lookup_path d' p
  | _ => None
  end.
Proof. destruct p; [done|]. reflexivity. Qed.

Lemma extends_refl a : extends a a.
Proof. intros p v Hv. exists v. split; [done|]. by destruct (is_dict v) eqn:E. Qed.

Lemma extends_trans a a' a'' : extends a'' a' -> extends a' a -> extends a'' a.
Proof.
  intros H2 H1 p v Hv.
  destruct (H1 p v Hv) as (v' & Hv' & Hc).
  destruct (H2 p v' Hv') as (v'' & Hv'' & Hc').
  exists v''. split; [done|].
  destruct (is_dict v) eqn:E.
  - by rewrite Hc in Hc'.
  - subst v'. by rewrite E in Hc'.
Qed.

Lemma lookup_path_set_ne k v a k1 p :
  k <> k1 -> lookup_path (dict_set k v a) (k1 :: p) = lookup_path a (k1 :: p).
Proof.
  intros Hne. destruct p as [|k2 p]; simpl; by rewrite dict_get_set_ne.
Qed.

Lemma lookup_path_Some_head a k p v :
  lookup_path a (k :: p) = Some v -> is_Some (dict_get k a).
Proof.
  destruct p as [|k2 p]; simpl; [by eauto|].
  destruct (dict_get k a); [by eauto|done].
Qed.

Lemma extends_set_new k v a :
  dict_get k a = None -> extends (dict_set k v a) a.
Proof.
  intros Hn p w Hw. destruct p as [|k1 p]; [done|].
  assert (k <> k1) as Hne.
  { intros <-. apply lookup_path_Some_head in Hw as [? ?]. congruence. }
  rewrite lookup_path_set_ne by done.
  exists w. split; [done|]. by destruct (is_dict w) eqn:E.
Qed.

Lemma extends_set_dict k da da' a :
  dict_get k a = Some (VDict da) -> extends da' da ->
  extends (dict_set k (VDict da') a) a.
Proof.
  intros Hg Hext p w Hw. destruct p as [|k1 p]; [done|].
  destruct (decide (k = k1)) as [<-|Hne].
  - destruct p as [|k2 p].
    + simpl in *. rewrite dict_get_set_eq. rewrite Hg in Hw. injection Hw as <-.
      eexists. split; done.
    + rewrite lookup_path_cons in Hw |- * by done.
      rewrite dict_get_set_eq. rewrite Hg in Hw. by apply Hext.
  - rewrite lookup_path_set_ne by done.
    exists w. split; [done|]. by destruct (is_dict w) eqn:E.
Qed.

Lemma extends_get a' a k v :
  extends a' a -> dict_get k a = Some v ->
  exists v', dict_get k a' = Some v' /\
             if is_dict v then is_dict v' = true else v' = v.
Proof. intros Hext Hg. apply (Hext [k] v Hg). Qed.

Lemma extends_sub a' a k da da' :
  extends a' a -> dict_get k a = Some (VDict da) ->
  dict_get k a' = Some (VDict da') -> extends da' da.
Proof.
  intros Hext Hg Hg' p v Hv. destruct p as [|k1 p]; [done|].
  specialize (Hext (k :: k1 :: p) v).
  rewrite !lookup_path_cons in Hext by done.
  rewrite Hg, Hg' in Hext. by apply Hext.
Qed.

Lemma extends_get_dict a' a k da :
  extends a' a -> dict_get k a = Some (VDict da) ->
  exists da', dict_get k a' = Some (VDict da') /\ extends da' da.
Proof.
  intros Hext Hg. destruct (extends_get _ _ _ _ Hext Hg) as (v' & Hg' & Hd).
  simpl in Hd. destruct v'; try discriminate.
  eexists. split; [done|]. by eapply extends_sub.
Qed.

Lemma extends_get_leaf a' a k v :
  extends a' a -> dict_get k a = Some v -> is_dict v = false ->
  dict_get k a' = Some v.
Proof.
  intros Hext Hg Hl. destruct (extends_get _ _ _ _ Hext Hg) as (v' & Hg' & Hd).
  rewrite Hl in Hd. by subst.
Qed.

(** Whatever the outcome, [merge_dicts] only adds to [a]. *)
Lemma merge_extends b :
  forall a path a' r, merge_dicts a b path = (a', r) -> extends a' a.
Proof.
  induction b as [|k vb b IHv IHb] using odict_nested_ind; intros a path a' r.
  - rewrite merge_dicts_nil. intros [= <- <-]. apply extends_refl.
  - destruct (merge_dicts_cases a k vb b path)
      as [(Hg & ->) | [(da & db & Hg & -> & ->) | (va & Hg & Hnd & ->)]].
    + intros Hm. eapply extends_trans; [by eapply IHb|]. by apply extends_set_new.
    + destruct (merge_dicts da db (path ++ [key_str k])) as [da' r'] eqn:Hsub.
      assert (extends (dict_set k (VDict da') a) a) as Hstep.
      { eapply extends_set_dict; [done|]. by eapply (IHv db eq_refl). }
      destruct r'.
      * intros Hm. eapply extends_trans; [by eapply IHb|done].
      * by intros [= <- <-].
    + destruct (py_eq va vb).
      * by apply IHb.
      * intros [= <- <-]. apply extends_refl.
Qed.

(** The only exception [merge_dicts] raises is the conflict, and the path
    it names continues the path it was called with. *)
Lemma merge_raises_conflict b :
  forall a path a' e, merge_dicts a b path = (a', Raise e) ->
    exists q, q <> [] /\ e = conflict (path ++ map key_str q).
Proof.
  induction b as [|k vb b IHv IHb] using odict_nested_ind; intros a path a' e.
  - by rewrite merge_dicts_nil.
  - destruct (merge_dicts_cases a k vb b path)
      as [(Hg & ->) | [(da & db & Hg & -> & ->) | (va & Hg & Hnd & ->)]].
    + apply IHb.
    + destruct (merge_dicts da db (path ++ [key_str k])) as [da' r'] eqn:Hsub.
      destruct r'; [apply IHb|].
      intros [= <- <-]. edestruct (IHv db eq_refl) as (q & Hq & ->); [done|].
      exists (k :: q). split; [done|]. by rewrite <- app_assoc.
    + destruct (py_eq va vb); [apply IHb|].
      intros [= <- <-]. by exists [k].
Qed.







Lemma unique_keys_cons k v d :
  unique_keys ((k, v) :: d) =
  negb (existsb (key_eqb k) (keys d)) && unique_keys_in v && unique_keys d.
Proof. reflexivity. Qed.

Lemma existsb_key_eqb_false k ks :
  existsb (key_eqb k) ks = false <-> k ∉ ks.
Proof.
  induction ks as [|k' ks IH]; simpl.
  - split; [intros _; apply not_elem_of_nil|done].
  - rewrite orb_false_iff, IH, not_elem_of_cons, key_eqb_neq. tauto.
Qed.




(** *** Merging a second time *)












(** ** merge_dicts on the object store *)

Lemma grows_refl h : grows h h.
Proof. split; [done|]. intros l d Hl. by exists d. Qed.

Lemma grows_trans h1 h2 h3 : grows h1 h2 -> grows h2 h3 -> grows h1 h3.
Proof.
  intros [Hd1 H1] [Hd2 H2]. split; [congruence|].
  intros l d Hl. destruct (H1 l d Hl) as (d' & Hl' & Hk).
  destruct (H2 l d' Hl') as (d'' & Hl'' & Hk').
  exists d''. split; [done|]. auto.
Qed.

Lemma grows_insert (h : Store.store) a da k v :
  h !! a = Some da -> dict_get k da = None ->
  grows h (<[a := dict_set k v da]> h).
Proof.
  intros Ha Hk. split.
  - apply dom_insert_lookup_L. by eexists.
  - intros l d Hl. destruct (decide (l = a)) as [->|Hne].
    + rewrite lookup_insert_eq. eexists. split; [done|].
      rewrite Ha in Hl. injection Hl as <-. intros k' v' Hg.
      rewrite dict_get_set_ne; [done|]. intros <-. congruence.
    + rewrite lookup_insert_ne by done. by exists d.
Qed.

Section store_loop.
Import Store.
Variable call : store -> loc -> loc -> list string -> store * outcome loc.
Hypothesis call_grows : forall h la lb p h' r, call h la lb p = (h', r) -> grows h h'.
Variables (a b : loc) (path : list string) (used : nat).

Lemma merge_key_grows k h h' r :
  merge_key call a b path k h = (h', r) -> grows h h'.
Proof.
  unfold merge_key.
  destruct (h !! a) as [da|] eqn:Ha; [|intros [= <- <-]; apply grows_refl].
  destruct (h !! b) as [db|] eqn:Hb; [|intros [= <- <-]; apply grows_refl].
  destruct (dict_get k db) as [vb|]; [|intros [= <- <-]; apply grows_refl].
  destruct (dict_get k da) as [va|] eqn:Hk.
  - destruct va as [la|x], vb as [lb|y];
      try (intros [= <- <-]; apply grows_refl).
    + apply call_grows.
    + destruct (py_eq x y); intros [= <- <-]; apply grows_refl.
  - intros [= <- <-]. by apply grows_insert.
Qed.


Lemma merge_keys_grows ks : forall h h' r,
  merge_keys call a b path used ks h = (h', r) -> grows h h'.
Proof.
  induction ks as [|k ks IH]; intros h h' r; simpl.
  - destruct (h !! b) as [db|]; [|intros [= <- <-]; apply grows_refl].
    destruct (negb _); intros [= <- <-]; apply grows_refl.
  - destruct (h !! b) as [db|]; [|intros [= <- <-]; apply grows_refl].
    destruct (negb _); [intros [= <- <-]; apply grows_refl|].
    destruct (merge_key call a b path k h) as [h1 [l|e]] eqn:Hstep.
    + intros Hrest. eapply grows_trans; [by eapply merge_key_grows|by eapply IH].
    + intros [= <- <-]. by eapply merge_key_grows.
Qed.



End store_loop.

Lemma store_merge_grows depth : forall h a b path h' r,
  Store.merge_dicts depth h a b path = (h', r) -> grows h h'.
Proof.
  induction depth as [|depth IH]; intros h a b path h' r; simpl.
  - intros [= <- <-]. apply grows_refl.
  - destruct (h !! b) as [db|]; [|intros [= <- <-]; apply grows_refl].
    by apply merge_keys_grows.
Qed.



(** ** The two models of merge_dicts agree *)

Lemma repr_ind' (h : Store.store) (D : gset Store.loc) (P : Store.sval -> value -> Prop) :
  (forall x, is_dict x = false -> P (Store.SVal x) x) ->
  (forall l o d, l ∈ D -> h !! l = Some o ->
     Forall2 (entry_rel (fun sv t => repr h D sv t /\ P sv t)) o d ->
     P (Store.SRef l) (VDict d)) ->
  forall sv t, repr h D sv t -> P sv t.
Proof.
  intros Hleaf Hdict. fix IH 3. intros sv t [x Hx|l o d Hl Ho Hitems].
  - by apply Hleaf.
  - apply (Hdict l o d Hl Ho). clear Ho.
    induction Hitems as [|[k sv'] [k' t'] o d [Hk Hr] Hitems IHitems]; constructor; [|done].
    split; [done|]. split; [done|]. by apply IH.
Qed.

Lemma repr_frame h h' D sv t :
  (forall l, l ∈ D -> h' !! l = h !! l) -> repr h D sv t -> repr h' D sv t.
Proof.
  intros Hsame Hr. induction Hr as [x Hx|l o d Hl Ho Hitems] using repr_ind'.
  - by constructor.
  - econstructor; [done|by rewrite Hsame|].
    eapply Forall2_impl; [done|]. intros [k sv] [k' t] [Hk [_ Hr]]. by split.
Qed.

Lemma repr_mono h D D' sv t : D ⊆ D' -> repr h D sv t -> repr h D' sv t.
Proof.
  intros Hsub Hr. induction Hr as [x Hx|l o d Hl Ho Hitems] using repr_ind'.
  - by constructor.
  - econstructor; [by apply Hsub|done|].
    eapply Forall2_impl; [done|]. intros [k sv] [k' t] [Hk [_ Hr]]. by split.
Qed.

Lemma own_frame h h' :
  (forall F sv t, own h F sv t ->
     (forall l, l ∈ F -> h' !! l = h !! l) -> own h' F sv t) /\
  (forall F o d, own_items h F o d ->
     (forall l, l ∈ F -> h' !! l = h !! l) -> own_items h' F o d).
Proof.
  apply own_mutind.
  - intros x Hx _. by constructor.
  - intros l o d F Hl Ho _ IH Hsame. eapply own_dict; [done| |].
    + rewrite Hsame; [done|set_solver].
    + apply IH. intros l' Hl'. apply Hsame. set_solver.
  - intros _. constructor.
  - intros k sv t o d F1 F2 _ IH1 _ IH2 Hdisj Hsame. constructor; [| |done].
    + apply IH1. intros l Hl. apply Hsame. set_solver.
    + apply IH2. intros l Hl. apply Hsame. set_solver.
Qed.

Lemma own_repr h :
  (forall F sv t, own h F sv t -> repr h F sv t) /\
  (forall F o d, own_items h F o d -> Forall2 (entry_rel (repr h F)) o d).
Proof.
  apply own_mutind.
  - intros x Hx. by constructor.
  - intros l o d F Hl Ho _ IH. econstructor; [set_solver|done|].
    eapply Forall2_impl; [done|]. intros [k sv] [k' t] [Hk Hr]. split; [done|].
    eapply repr_mono; [|done]. set_solver.
  - constructor.
  - intros k sv t o d F1 F2 _ IH1 _ IH2 Hdisj. constructor.
    + split; [done|]. eapply repr_mono; [|done]. set_solver.
    + eapply Forall2_impl; [done|]. intros [k1 sv1] [k1' t1] [Hk Hr]. split; [done|].
      eapply repr_mono; [|done]. set_solver.
Qed.

Lemma own_items_mixed h B P F o d :
  own_items h F o d -> mixed h B P F o d.
Proof.
  induction 1 as [|k sv t o d F1 F2 Hown Hitems IH Hdisj].
  - constructor.
  - econstructor; [|done|exact IH|done|done].
    eapply repr_mono; [|by apply own_repr]. set_solver.
Qed.

Lemma mixed_weaken h B P P' F F' o d :
  (forall k, k ∈ P' -> k ∈ P) -> F ⊆ F' ->
  mixed h B P F o d -> mixed h B P' F' o d.
Proof.
  intros HP HF Hm. revert F' HF.
  induction Hm as [F|k sv t o d F1 F2 F Hr Hown Hm IH Hdisj Hsub]; intros F' HF.
  - constructor.
  - econstructor; [done|by auto|by apply IH|done|set_solver].
Qed.

Lemma mixed_drop h B P P' F o d :
  (forall k, k ∈ P' -> k ∈ P) -> mixed h B P F o d -> mixed h B P' F o d.
Proof. intros HP. by apply mixed_weaken. Qed.

Lemma mixed_done h B P F o d : mixed h B P F o d -> mixed h B [] F o d.
Proof. apply mixed_drop. intros k Hk. by apply elem_of_nil in Hk. Qed.

Lemma mixed_frame h h' B P F o d :
  (forall l, l ∈ F ∪ B -> h' !! l = h !! l) ->
  mixed h B P F o d -> mixed h' B P F o d.
Proof.
  intros Hsame Hm.
  induction Hm as [F|k sv t o d F1 F2 F Hr Hown Hm IH Hdisj Hsub].
  - constructor.
  - econstructor; [| | |done|done].
    + eapply repr_frame; [|done]. intros l Hl. apply Hsame. set_solver.
    + intros Hk. eapply own_frame; [by apply Hown|].
      intros l Hl. apply Hsame. set_solver.
    + apply IH. intros l Hl. apply Hsame. set_solver.
Qed.

Lemma mixed_repr h B P F o d :
  mixed h B P F o d -> Forall2 (entry_rel (repr h (F ∪ B))) o d.
Proof.
  induction 1 as [F|k sv t o d F1 F2 F Hr Hown Hm IH Hdisj Hsub].
  - constructor.
  - constructor.
    + split; [done|]. eapply repr_mono; [|done]. set_solver.
    + eapply Forall2_impl; [done|]. intros [k1 sv1] [k1' t1] [Hk Hr1]. split; [done|].
      eapply repr_mono; [|done]. set_solver.
Qed.

(** Looking a key up in the object and in the mapping it stands for. *)
Lemma mixed_get h B P F o d k :
  mixed h B P F o d ->
  match dict_get k o, dict_get k d with
  | None, None => True
  | Some sv, Some t =>
      exists F1, F1 ⊆ F /\ repr h (F1 ∪ B) sv t /\ (k ∈ P -> own h F1 sv t)
  | _, _ => False
  end.
Proof.
  induction 1 as [F|k0 sv t o d F1 F2 F Hr Hown Hm IH Hdisj Hsub]; simpl; [done|].
  destruct (key_eqb k k0) eqn:E.
  - apply key_eqb_eq in E as ->. exists F1. split_and!; [set_solver|done|done].
  - destruct (dict_get k o), (dict_get k d); try done.
    destruct IH as (F1' & Hsub' & Hr' & Hown'). exists F1'. split_and!; [set_solver|done..].
Qed.

(** A new key goes last in both. *)
Lemma mixed_insert h B P F o d k sv t :
  dict_get k o = None -> repr h B sv t -> k ∉ P ->
  mixed h B P F o d -> mixed h B P F (dict_set k sv o) (dict_set k t d).
Proof.
  intros Hnone Hr HP Hm.
  induction Hm as [F|k0 sv0 t0 o d F1 F2 F Hr0 Hown Hm IH Hdisj Hsub]; simpl.
  - eapply (mixed_cons _ _ _ _ _ _ _ _ ∅ ∅); [|done|constructor|set_solver|set_solver].
    eapply repr_mono; [|done]. set_solver.
  - simpl in Hnone. destruct (key_eqb k k0); [done|].
    econstructor; [done|done|by apply IH|done|done].
Qed.

(** The entry of a key still to come is a tree of its own; once the call
    on it has run, inside its objects only, the entry is replaced and the
    others stand. *)
Lemma mixed_update h B P F o d k sv t :
  mixed h B P F o d -> B ## F ->
  dict_get k o = Some sv -> dict_get k d = Some t -> k ∈ P ->
  exists F1, F1 ⊆ F /\ own h F1 sv t /\
    forall h' t' P',
      (forall l, l ∉ F1 -> h' !! l = h !! l) ->
      repr h' (F1 ∪ B) sv t' ->
      (forall k', k' ∈ P' -> k' ∈ P /\ k' <> k) ->
      mixed h' B P' F o (dict_set k t' d).
Proof.
  intros Hm HB. revert sv t.
  induction Hm as [F|k0 sv0 t0 o d F1 F2 F Hr0 Hown Hm IH Hdisj Hsub];
    intros sv t; simpl; [done|].
  destruct (key_eqb k k0) eqn:E.
  - apply key_eqb_eq in E as ->. intros [= <-] [= <-] HP.
    exists F1. split_and!; [set_solver|by apply Hown|].
    intros h' t' P' Hsame Hr' HP'.
    econstructor; [done| | |done|done].
    + intros Hk. by destruct (HP' _ Hk).
    + eapply mixed_frame; [|eapply mixed_drop; [|done]].
      * intros l Hl. apply Hsame. set_solver.
      * intros k' Hk'. by destruct (HP' _ Hk').
  - intros Hsv Ht HP.
    destruct (IH ltac:(set_solver) sv t Hsv Ht HP) as (F1' & Hsub' & Hown' & Hupd).
    exists F1'. split_and!; [set_solver|done|].
    intros h' t' P' Hsame Hr' HP'.
    econstructor; [| |by apply Hupd|done|done].
    + eapply repr_frame; [|done]. intros l Hl. apply Hsame. set_solver.
    + intros Hk0. eapply own_frame; [apply Hown; by destruct (HP' _ Hk0)|].
      intros l Hl. apply Hsame. set_solver.
Qed.

Lemma Forall2_entry_keys {A B} (P : A -> B -> Prop) (o : list (key * A)) (d : list (key * B)) :
  Forall2 (entry_rel P) o d -> keys o = keys d.
Proof.
  induction 1 as [|[k x] [k' y] o d [Hk _] _ IH]; simpl; [done|].
  simpl in Hk. by rewrite Hk, IH.
Qed.

Lemma Forall2_entry_length {A B} (P : A -> B -> Prop) (o : list (key * A)) (d : list (key * B)) :
  Forall2 (entry_rel P) o d -> List.length o = List.length d.
Proof. apply Forall2_length. Qed.

Lemma repr_kind h D sv t : repr h D sv t ->
  match sv with
  | Store.SRef _ => is_dict t = true
  | Store.SVal x => t = x /\ is_dict t = false
  end.
Proof. by destruct 1. Qed.

Lemma unique_keys_NoDup d : unique_keys d = true -> NoDup (keys d).
Proof.
  induction d as [|[k v] d IH]; simpl; [constructor|].
  rewrite unique_keys_cons. intros Hu.
  apply andb_prop in Hu as [Hu Hud]. apply andb_prop in Hu as [Hk _].
  apply negb_true_iff, existsb_key_eqb_false in Hk.
  constructor; [done|by apply IH].
Qed.

Lemma dict_get_entry {V} (o : list (key * V)) k v :
  NoDup (keys o) -> (k, v) ∈ o -> dict_get k o = Some v.
Proof.
  induction o as [|[k0 v0] o IH]; simpl.
  - intros _ Hin. by apply elem_of_nil in Hin.
  - intros Hnd Hin. apply NoDup_cons in Hnd as [Hk0 Hnd].
    apply elem_of_cons in Hin as [[= -> ->]|Hin].
    + by rewrite key_eqb_refl.
    + assert (key_eqb k k0 = false) as ->.
      { apply key_eqb_neq. intros ->. apply Hk0.
        apply list_elem_of_fmap. by exists (k0, v). }
      by apply IH.
Qed.

Section store_refines.
Variable n : nat.
Hypothesis nested : forall h a b ta tb Fa B path ta' r,
  own h Fa (Store.SRef a) (VDict ta) -> repr h B (Store.SRef b) (VDict tb) -> Fa ## B ->
  unique_keys tb = true -> (dict_size tb <= n)%nat ->
  merge_dicts ta tb path = (ta', r) ->
  exists h', Store.merge_dicts n h a b path = (h', lift a r) /\
             repr h' (Fa ∪ B) (Store.SRef a) (VDict ta') /\
             (forall l, l ∉ Fa -> h' !! l = h !! l).

Variables (h0 : Store.store) (a b : Store.loc) (path : list string) (ob : Store.obj) (B F : gset Store.loc).
Hypothesis Hb : h0 !! b = Some ob.
Hypothesis HbB : b ∈ B.
Hypothesis HaB : a ∉ B.
Hypothesis HaF : a ∉ F.
Hypothesis HBF : B ## F.

Lemma merge_keys_refines rest_o rest_t :
  Forall2 (entry_rel (repr h0 B)) rest_o rest_t ->
  unique_keys rest_t = true ->
  (dict_size rest_t <= S n)%nat ->
  (forall k sv, (k, sv) ∈ rest_o -> dict_get k ob = Some sv) ->
  forall (h : Store.store) oa ta ta' r,
    (forall l, l ∉ F ∪ {[a]} -> h !! l = h0 !! l) ->
    h !! a = Some oa ->
    mixed h B (keys rest_t) F oa ta ->
    merge_dicts ta rest_t path = (ta', r) ->
    exists h' oa',
      Store.merge_keys (Store.merge_dicts n) a b path (List.length ob) (keys rest_o) h
        = (h', lift a r) /\
      h' !! a = Some oa' /\ mixed h' B [] F oa' ta' /\
      (forall l, l ∉ F ∪ {[a]} -> h' !! l = h0 !! l) /\
      (forall k sv, (k, sv) ∈ rest_o -> dict_get k oa = None -> r = Ok () ->
                    dict_get k oa' = Some sv).
Proof.
  assert (forall h : Store.store,
            (forall l, l ∉ F ∪ {[a]} -> h !! l = h0 !! l) -> h !! b = Some ob)
    as Hb_cur.
  { intros h Hsame. rewrite Hsame; [done|]. set_solver. }
  induction 1 as [|[k svb] [k' tbk] rest_o rest_t [Hk Hrb] Hrest IH];
    intros Hu Hsize Hentries h oa ta ta' r Hsame Ha Hm.
  - rewrite merge_dicts_nil. intros [= <- <-]. simpl.
    rewrite (Hb_cur h Hsame), Nat.eqb_refl. simpl.
    exists h, oa. split_and!; [done..| |done|]; [by eapply mixed_done|].
    intros k sv Hin. by apply elem_of_nil in Hin.
  - simpl in Hk, Hrb. subst k'.
    rewrite unique_keys_cons in Hu. apply andb_prop in Hu as [Hu Hurest].
    apply andb_prop in Hu as [Hknew Hutbk].
    apply negb_true_iff, existsb_key_eqb_false in Hknew.
    rewrite dict_size_cons in Hsize.
    assert (dict_size rest_t <= S n)%nat as Hsize_rest by lia.
    assert (forall k0 sv, (k0, sv) ∈ rest_o -> dict_get k0 ob = Some sv) as Hentries_rest.
    { intros k0 sv Hin. apply Hentries. by apply list_elem_of_further. }
    specialize (IH Hurest Hsize_rest Hentries_rest).
    assert (dict_get k ob = Some svb) as Hkb by (apply Hentries, list_elem_of_here).
    assert (forall k1 sv1, (k1, sv1) ∈ rest_o -> k1 <> k) as Hlater.
    { intros k1 sv1 Hin ->. apply Hknew.
      rewrite <- (Forall2_entry_keys _ _ _ Hrest).
      apply list_elem_of_fmap. by exists (k, sv1). }
    assert (forall k', k' ∈ keys rest_t -> k' ∈ keys ((k, tbk) :: rest_t) /\ k' <> k)
      as Hpending.
    { intros k' Hk'. split; [by apply list_elem_of_further|]. by intros ->. }
    simpl Store.merge_keys. rewrite (Hb_cur h Hsame), Nat.eqb_refl. simpl negb. cbv iota.
    unfold Store.merge_key. rewrite Ha, (Hb_cur h Hsame), Hkb.
    pose proof (mixed_get _ _ _ _ _ _ k Hm) as Hget.
    assert (repr h B svb tbk) as Hrb_cur.
    { eapply repr_frame; [|done]. intros l Hl. apply Hsame. set_solver. }
    destruct (merge_dicts_cases ta k tbk rest_t path)
      as [(Hg & ->) | [(dak & dbk & Hg & -> & ->) | (tak & Hg & Hnd & ->)]];
      rewrite Hg in Hget.
    + (* the key is new to the generated mapping *)
      destruct (dict_get k oa) as [sva|] eqn:Hoa; [done|].
      intros Hrun.
      edestruct (IH (<[a := dict_set k svb oa]> h) (dict_set k svb oa))
        as (h' & oa' & Hloop & Ha' & Hm' & Hsame' & Hshare'); [| | |exact Hrun|].
      * intros l Hl. rewrite lookup_insert_ne; [by apply Hsame|set_solver].
      * by rewrite lookup_insert_eq.
      * apply mixed_insert; [done| |done|].
        -- eapply repr_frame; [|done]. intros l Hl.
           rewrite lookup_insert_ne; [done|set_solver].
        -- eapply mixed_frame; [|eapply mixed_drop; [|done]].
           ++ intros l Hl. rewrite lookup_insert_ne; [done|set_solver].
           ++ intros k' Hk'. by apply list_elem_of_further.
      * exists h', oa'. rewrite Hloop. split_and!; [done..|].
        intros k1 sv1 Hin Hnone Hr. apply elem_of_cons in Hin as [[= -> ->]|Hin].
        -- pose proof (merge_keys_grows (Store.merge_dicts n) (store_merge_grows n)
                         _ _ _ _ _ _ _ _ Hloop) as [_ Hgrow].
           destruct (Hgrow a (dict_set k svb oa)) as (d' & Hd' & Hkeep);
             [by rewrite lookup_insert_eq|].
           rewrite Ha' in Hd'. injection Hd' as <-.
           apply Hkeep. apply dict_get_set_eq.
        -- apply (Hshare' _ _ Hin); [|done].
           rewrite dict_get_set_ne; [done|]. intros Heq. by eapply Hlater.
    + (* both values are mappings *)
      destruct (dict_get k oa) as [sva|] eqn:Hoa; [|done].
      destruct Hget as (F1 & HF1 & Hra & Hown).
      pose proof (repr_kind _ _ _ _ Hrb_cur) as Hkindb.
      destruct svb as [lb|y]; [|by destruct Hkindb as [<- ?]].
      pose proof (repr_kind _ _ _ _ Hra) as Hkinda.
      destruct sva as [la|x]; [|by destruct Hkinda as [<- ?]].
      destruct (merge_dicts dak dbk (path ++ [key_str k])) as [dak' r1] eqn:Hsub.
      destruct (mixed_update _ _ _ _ _ _ k _ _ Hm HBF Hoa Hg (list_elem_of_here _ _))
        as (F1' & HF1' & Hown' & Hupd).
      edestruct (nested h la lb dak dbk F1' B (path ++ [key_str k]) dak' r1)
        as (h1 & Hcall & Hr1 & Hsame1); [done|done|set_solver|done| |done|].
      { change (value_size (VDict dbk)) with (dict_size dbk) in Hsize.
        pose proof (value_size_pos (VDict rest_t)). unfold dict_size in *. lia. }
      rewrite Hcall.
      assert (mixed h1 B (keys rest_t) F oa (dict_set k (VDict dak') ta)) as Hm1.
      { by apply Hupd. }
      assert (forall l, l ∉ F ∪ {[a]} -> h1 !! l = h0 !! l) as Hsame1'.
      { intros l Hl. rewrite Hsame1; [by apply Hsame|set_solver]. }
      assert (h1 !! a = Some oa) as Ha1.
      { rewrite Hsame1; [done|set_solver]. }
      destruct r1 as [[]|e]; simpl lift.
      * intros Hrun.
        edestruct (IH h1 oa) as (h' & oa' & Hloop & Ha' & Hm' & Hsame' & Hshare');
          [done|done|done|exact Hrun|].
        exists h', oa'. rewrite Hloop. split_and!; [done..|].
        intros k1 sv1 Hin Hnone Hr. apply elem_of_cons in Hin as [[= -> ->]|Hin].
        -- congruence.
        -- by apply (Hshare' _ _ Hin).
      * intros [= <- <-]. exists h1, oa. split_and!; [done|done| |done|done].
        by eapply mixed_done.
    + (* a leaf on one side at least *)
      destruct (dict_get k oa) as [sva|] eqn:Hoa; [|done].
      destruct Hget as (F1 & HF1 & Hra & Hown).
      pose proof (repr_kind _ _ _ _ Hrb_cur) as Hkindb.
      pose proof (repr_kind _ _ _ _ Hra) as Hkinda.
      assert (match sva, svb with
              | Store.SVal x, Store.SVal y => tak = x /\ tbk = y
              | _, _ => py_eq tak tbk = false
              end) as Hcmp.
      { destruct sva as [la|x], svb as [lb|y].
        - rewrite Hkinda, Hkindb in Hnd. done.
        - destruct Hkindb as [-> Hy]. apply py_eq_dict_leaf; by rewrite Hkinda, ?Hy.
        - destruct Hkinda as [-> Hx]. apply py_eq_dict_leaf; by rewrite Hkindb, ?Hx, ?orb_true_r.
        - by destruct Hkinda as [-> _], Hkindb as [-> _]. }
      assert (mixed h B (keys rest_t) F oa ta) as Hm_rest.
      { eapply mixed_drop; [|done]. intros k' Hk'. by apply list_elem_of_further. }
      destruct sva as [la|x], svb as [lb|y].
      * rewrite Hkinda, Hkindb in Hnd. done.
      * rewrite Hcmp. intros [= <- <-].
        exists h, oa. split_and!; [done|done|by eapply mixed_done|done|done].
      * rewrite Hcmp. intros [= <- <-].
        exists h, oa. split_and!; [done|done|by eapply mixed_done|done|done].
      * destruct Hcmp as [-> ->]. destruct (py_eq x y).
        -- intros Hrun.
           edestruct (IH h oa) as (h' & oa' & Hloop & Ha' & Hm' & Hsame' & Hshare');
             [done|done|done|exact Hrun|].
           exists h', oa'. rewrite Hloop. split_and!; [done..|].
           intros k1 sv1 Hin Hnone Hr. apply elem_of_cons in Hin as [[= -> ->]|Hin].
           ++ congruence.
           ++ by apply (Hshare' _ _ Hin).
        -- intros [= <- <-].
           exists h, oa. split_and!; [done|done|by eapply mixed_done|done|done].
Qed.
End store_refines.

(** X22. On a store that holds the generated mapping as a tree of its own
    objects, apart from those of the defaults, [Store.merge_dicts] does what
    [merge_dicts] does on the mappings: the same outcome, the same mapping
    left in [a], also when the call raises, and nothing written outside
    the objects of [a]. *)
Theorem store_merge_refines depth : forall h a b ta tb Fa B path ta' r,
  own h Fa (Store.SRef a) (VDict ta) -> repr h B (Store.SRef b) (VDict tb) -> Fa ## B ->
  unique_keys tb = true -> (dict_size tb <= depth)%nat ->
  merge_dicts ta tb path = (ta', r) ->
  exists h', Store.merge_dicts depth h a b path = (h', lift a r) /\
             repr h' (Fa ∪ B) (Store.SRef a) (VDict ta') /\
             (forall l, l ∉ Fa -> h' !! l = h !! l).
Proof.
  induction depth as [|n IH]; intros h a b ta tb Fa B path ta' r Hown Hrepr Hdisj Hu Hsize Hrun.
  - pose proof (value_size_pos (VDict tb)). unfold dict_size in Hsize. lia.
  - inversion Hown as [|? oa ? F HaF Ha Hitems]; subst.
    inversion Hrepr as [|? ob ? HbB Hb Hentries]; subst.
    simpl. rewrite Hb.
    pose proof (Forall2_entry_keys _ _ _ Hentries) as Hkeys.
    edestruct (merge_keys_refines n IH h a b path ob B F Hb HbB) as
      (h' & oa' & Hloop & Ha' & Hm' & Hsame' & _); [set_solver|done|set_solver|exact Hentries|done|done| |done|exact Ha| |exact Hrun|].
    + intros k sv Hin. apply dict_get_entry; [|done].
      rewrite Hkeys. by apply unique_keys_NoDup.
    + by apply own_items_mixed.
    + exists h'. split_and!; [done| |].
      * econstructor; [set_solver|done|].
        eapply Forall2_impl; [by eapply mixed_repr|].
        intros [k sv] [k' t] [Hk Hr]. split; [done|].
        eapply repr_mono; [|done]. set_solver.
      * intros l Hl. apply Hsame'. set_solver.
Qed.

(** The store of [store_merge_in_place_witness] holds the mappings
    [{z: 1}] and [{x: 5, z: 2}] in this way. *)
Example store_merge_refines_example :
  let h : Store.store :=
    <[1%nat := [(KStr "z", Store.SVal (VInt 1))]]>
      (<[2%nat := [(KStr "x", Store.SVal (VInt 5)); (KStr "z", Store.SVal (VInt 2))]]> ∅) in
  exists h',
    Store.merge_dicts 8 h 1%nat 2%nat [] = (h', Raise (PyException "Conflict at z")) /\
    repr h' (({[1%nat]} ∪ (∅ ∪ ∅)) ∪ {[2%nat]}) (Store.SRef 1%nat)
      (VDict [(KStr "z", VInt 1); (KStr "x", VInt 5)]).
Proof.
  intros h.
  edestruct (store_merge_refines 8 h 1%nat 2%nat [(KStr "z", VInt 1)]
               [(KStr "x", VInt 5); (KStr "z", VInt 2)]
               ({[1%nat]} ∪ (∅ ∪ ∅)) {[2%nat]} []) as (h' & Hrun & Hrepr & _).
  - eapply own_dict; [set_solver|reflexivity|].
    apply own_cons; [by constructor|constructor|set_solver].
  - eapply repr_dict; [set_solver|reflexivity|].
    repeat constructor.
  - set_solver.
  - reflexivity.
  - unfold dict_size. simpl. lia.
  - reflexivity.
  - exists h'. split; [exact Hrun|exact Hrepr].
Defined.

(** ** Outcomes *)

Lemma bind_Ok {A B} (x : A) (f : A -> outcome B) : (y ← Ok x; f y) = f x.
Proof. reflexivity. Qed.

Lemma bind_Raise {A B} e (f : A -> outcome B) : (y ← Raise e; f y) = Raise e.
Proof. reflexivity. Qed.

(** ** TypeMapper *)

Lemma split_on_no_sep c s : contains_char c s = false -> split_on c s = [s].
Proof.
  induction s as [|c' s IH]; simpl; [done|].
  destruct (Ascii.eqb c' c); simpl; [done|]. intros Hs. by rewrite IH.
Qed.

Lemma split_on_sep c s :
  contains_char c s = true -> (2 <= List.length (split_on c s))%nat.
Proof.
  induction s as [|c' s IH]; simpl; [done|].
  destruct (Ascii.eqb c' c); simpl.
  - intros _. destruct (split_on c s) eqn:E; simpl; [|lia].
    destruct s; simpl in E; [done|]. destruct (Ascii.eqb a c); [done|].
    by destruct (split_on c s).
  - intros Hs. specialize (IH Hs). destruct (split_on c s); simpl in *; lia.
Qed.

(** [xsd_to_json_type] raises exactly on a type name with two colons or
    more; on every other input it returns a fragment or [None]. *)
Lemma xsd_to_json_type_raises full_type :
  (exists e, xsd_to_json_type full_type = Raise e) <->
  exists t, full_type = Some t /\ (3 <= List.length (split_on ":" t))%nat.
Proof.
  destruct full_type as [t|]; simpl.
  - destruct (contains_char ":" t) eqn:Hc.
    + pose proof (split_on_sep _ _ Hc) as Hlen.
      destruct (split_on ":" t) as [|x [|y [|z parts]]] eqn:Hs; simpl in Hlen; try lia.
      * split; [intros [e He]; done|]. intros (t' & [= <-] & Hl). rewrite Hs in Hl.
        simpl in Hl. lia.
      * split; [|by eauto]. intros _. exists t. rewrite Hs. simpl. split; [done|lia].
    + split; [intros [e He]; done|]. intros (t' & [= <-] & Hl).
      rewrite split_on_no_sep in Hl by done. simpl in Hl. lia.
  - split; [intros [e He]; done|]. by intros (t & ? & _).
Qed.

(** The examples of the specification. *)
Lemma xsd_to_json_type_examples :
  xsd_to_json_type (Some "xsd:int") = Ok (Some (VStr "integer")) /\
  xsd_to_json_type (Some "csapi:UUID") = Ok (Some (VDict [(KStr "type", VStr "string")])) /\
  xsd_to_json_type None = Ok None /\
  xsd_to_json_type (Some "bogus:Foo") = Ok None.
Proof. repeat split. Qed.

(** C4 at its failing input: a type name with two colons.  The unpacking
    of [full_type.split(":")] into two names raises a [ValueError]; the
    function does not return. *)
Theorem xsd_to_json_type_two_colons :
  xsd_to_json_type (Some "a:b:c") = Raise (ValueError "too many values to unpack").
Proof. reflexivity. Qed.

Lemma assoc_In {V} k (l : list (string * V)) v : assoc k l = Some v -> v ∈ map snd l.
Proof.
  induction l as [|[k' v'] l IH]; simpl; [done|].
  destruct (String.eqb k k').
  - intros [= ->]. apply list_elem_of_here.
  - intros Hl. apply list_elem_of_further. by apply IH.
Qed.

(** What the type table can answer. *)
Lemma xsd_to_json_type_range full_type v :
  xsd_to_json_type full_type = Ok (Some v) -> v ∈ type_fragments.
Proof.
  unfold type_fragments.
  destruct full_type as [t|]; simpl; [|done].
  destruct (if contains_char ":" t then _ else _) as [[ns ty]|e]; simpl; [|done].
  destruct (String.eqb ns "xsd"); [|destruct (String.eqb ns "csapi"); [|done]];
    intros [= Hty]; repeat case_match; simplify_eq; set_unfold; naive_solver.
Qed.

(** ** ParameterBuilder *)

Lemma style_to_in_range style location :
  style_to_in style = Ok location ->
  location ∈ ["unknown"; "query"; "header"; "path"; "body"].
Proof.
  unfold style_to_in.
  destruct (assoc style _) as [l|] eqn:Hs; [|done].
  intros [= <-]. apply assoc_In in Hs. exact Hs.
Qed.

Lemma style_to_in_plain : style_to_in "plain" = Ok "body".
Proof. reflexivity. Qed.

(** Under autofix a parameter in the body is dropped, provided the type
    mapper returns. *)
Lemma build_param_body options p r :
  autofix options = true -> param_style p = "plain" ->
  xsd_to_json_type (Some (default "string" (param_type p))) = Ok r ->
  build_param options p = Ok None.
Proof.
  intros Hfix Hstyle Hty. unfold build_param.
  rewrite Hstyle, style_to_in_plain, bind_Ok. cbv beta zeta.
  rewrite Hty, bind_Ok, Hfix.
  destruct r as [v|].
  - apply xsd_to_json_type_range in Hty. unfold type_fragments in Hty. set_unfold.
    destruct Hty as [->|[->|[->|[->|[->|[->|[->|[]]]]]]]]; reflexivity.
  - reflexivity.
Qed.

(** C7 at its failing input: a body parameter whose type name has two
    colons, autofix on.  [build_param] raises the [ValueError] of the type
    mapper before it looks at the location; the parameter is not dropped,
    the conversion ends. *)
Theorem build_param_body_two_colons :
  let options := {| autofix := true; strict := false; nodoc := false; merge_dir := "." |} in
  let p := {| param_name := "payload"; param_style := "plain";
              param_is_required := false; param_type := Some "a:b:c";
              param_doc := None |} in
  build_param options p = Raise (ValueError "too many values to unpack") /\
  build_params options [p] [] = Raise (ValueError "too many values to unpack").
Proof. split; reflexivity. Qed.

(** C2, as the specification states it, fails with autofix off: a template
    parameter that is not required stays so. *)
Lemma build_param_path_not_required :
  let options := {| autofix := false; strict := false; nodoc := true; merge_dir := "." |} in
  let p := {| param_name := "id"; param_style := "template";
              param_is_required := false; param_type := Some "xsd:string";
              param_doc := None |} in
  build_param options p =
    Ok (Some [(KStr "name", VStr "id"); (KStr "required", VBool false);
              (KStr "in", VStr "path"); (KStr "type", VStr "string")]).
Proof. reflexivity. Qed.

(** The type of a parameter, a name or a fragment of the table, leaves its
    [in] and [required] as they are. *)
Lemma typed_param_fields name req location json_type :
  json_type ∈ type_fragments \/ (exists s, json_type = VStr s) ->
  let param0 := dict_set (KStr "in") (VStr location)
                  [(KStr "name", VStr name); (KStr "required", VBool req)] in
  let param1 := match json_type with
                | VDict fragment => dict_update param0 fragment
                | _ => dict_set (KStr "type") json_type param0
                end in
  dict_get (KStr "in") param1 = Some (VStr location) /\
  dict_get (KStr "required") param1 = Some (VBool req).
Proof.
  unfold type_fragments. intros [Hin|[s ->]]; [|done].
  set_unfold. destruct Hin as [->|[->|[->|[->|[->|[->|[->|[]]]]]]]]; done.
Qed.

(** The location and the [required] flag of the parameter [build_param]
    builds. *)
Lemma build_param_fields options p param :
  build_param options p = Ok (Some param) ->
  exists location,
    style_to_in (param_style p) = Ok location /\
    dict_get (KStr "in") param = Some (VStr location) /\
    dict_get (KStr "required") param =
      Some (VBool (autofix options && String.eqb location "path" || param_is_required p)) /\
    (autofix options = true -> location <> "body").
Proof.
  unfold build_param.
  destruct (style_to_in (param_style p)) as [location|e] eqn:Hstyle; [|done].
  rewrite bind_Ok. cbv beta zeta.
  destruct (xsd_to_json_type (Some (default "string" (param_type p))))
    as [r|e] eqn:Hty; [|done].
  rewrite bind_Ok.
  match goal with
  | |- context [match ?jt with VDict fragment => dict_update ?p0 fragment | _ => _ end] =>
      destruct (typed_param_fields (param_name p) (param_is_required p) location jt)
        as [Hloc Hreq]
  end.
  { destruct r as [v|].
    - left. by eapply xsd_to_json_type_range.
    - right. destruct (autofix options); by eexists. }
  cbv zeta in Hloc, Hreq.
  match goal with
  | |- context [match ?jt with VDict fragment => dict_update ?p0 fragment | _ => _ end] =>
      set (param1 := match jt with VDict fragment => dict_update p0 fragment | _ => _ end) in *
  end.
  unfold field_is, required_is_not_True. rewrite Hloc, Hreq. simpl py_eq.
  assert (forall P : odict,
            dict_get (KStr "in")
              (if nodoc options then P
               else match param_doc p with
                    | Some d => dict_set (KStr "description") (VFolded d) P
                    | None => P
                    end) = dict_get (KStr "in") P /\
            dict_get (KStr "required")
              (if nodoc options then P
               else match param_doc p with
                    | Some d => dict_set (KStr "description") (VFolded d) P
                    | None => P
                    end) = dict_get (KStr "required") P) as Hdoc.
  { intros P. destruct (nodoc options), (param_doc p); rewrite ?dict_get_set_ne; done. }
  destruct (autofix options); simpl andb.
  - destruct (String.eqb location "body") eqn:Hbody; [done|].
    intros [= <-]. exists location. destruct (Hdoc
      (if String.eqb location "path" && match param_is_required p with true => false | false => true end
       then dict_set (KStr "required") (VBool true) param1 else param1)) as [-> ->].
    split_and!; [done| | |].
    + destruct (String.eqb location "path" && _); [|done].
      by rewrite dict_get_set_ne.
    + destruct (String.eqb location "path"), (param_is_required p); simpl;
        rewrite ?dict_get_set_eq; done.
    + intros _ ->. done.
  - intros [= <-]. exists location. destruct (Hdoc param1) as [-> ->].
    split_and!; done.
Qed.

(** C2 (amended). With autofix on, every parameter [build_param] builds
    whose location is [path] has [required] true; with autofix off the flag
    is the one of the source parameter. *)
Theorem build_param_path_required options p param :
  build_param options p = Ok (Some param) ->
  dict_get (KStr "in") param = Some (VStr "path") ->
  dict_get (KStr "required") param =
    Some (VBool (if autofix options then true else param_is_required p)).
Proof.
  intros Hbuild Hpath.
  destruct (build_param_fields _ _ _ Hbuild) as (location & _ & Hloc & Hreq & _).
  rewrite Hpath in Hloc. injection Hloc as <-. rewrite Hreq.
  by destruct (autofix options).
Qed.

Lemma build_param_path_required_witness :
  let options := {| autofix := true; strict := false; nodoc := false; merge_dir := "." |} in
  let p := {| param_name := "id"; param_style := "template";
              param_is_required := false; param_type := Some "xsd:anyURI";
              param_doc := Some "The id." |} in
  let param := [(KStr "name", VStr "id"); (KStr "required", VBool true);
                (KStr "in", VStr "path"); (KStr "type", VStr "string");
                (KStr "format", VStr "uri"); (KStr "description", VFolded "The id.")] in
  dict_get (KStr "required") param = Some (VBool true).
Proof.
  intros options p param.
  exact (build_param_path_required options p param eq_refl eq_refl).
Defined.

(** ** Loops *)

Lemma for_each_app {A S} (body : S -> A -> outcome S) xs ys st :
  for_each body (xs ++ ys) st = (st' ← for_each body xs st; for_each body ys st').
Proof.
  revert st. induction xs as [|x xs IH]; intros st; simpl; [done|].
  destruct (body st x) as [st1|e]; simpl; [apply IH|done].
Qed.


(** ** Seeding the document *)

(** C3 at its failing input: defaults that define [consumes] and not
    [produces].  The second lookup of the [try] raises, the handler
    overwrites the [consumes] just taken from the defaults, and the merge
    that ends the conversion meets the two different values: the conversion
    fails. *)
Theorem seed_consumes_without_produces `{JsonModule} options wadl_file title :
  let defaults := [(KStr "consumes", VList [VStr "application/xml"])] in
  dict_get (KStr "consumes") (seed title defaults)
    = Some (VList [VStr "application/json"]) /\
  convert options wadl_file title defaults []
    = Raise (PyException "Conflict at consumes").
Proof. split; reflexivity. Qed.

(** What [seed] does with [consumes] and [produces]: the values of the
    defaults when both are there, the JSON media type otherwise. *)
Lemma seed_media_types `{JsonModule} title defaults :
  let sw := seed title defaults in
  match dict_get (KStr "consumes") defaults, dict_get (KStr "produces") defaults with
  | Some c, Some p =>
      dict_get (KStr "consumes") sw = Some c /\ dict_get (KStr "produces") sw = Some p
  | _, _ =>
      dict_get (KStr "consumes") sw = Some json_only /\
      dict_get (KStr "produces") sw = Some json_only
  end.
Proof.
  unfold seed.
  destruct (dict_get (KStr "info") defaults) as [info|];
    destruct (dict_get (KStr "consumes") defaults) as [c|];
    destruct (dict_get (KStr "produces") defaults) as [p|]; simpl; done.
Qed.

(** ** Responses *)

Section responses.
Context `{JsonModule}.
Variables (options : Options) (wadl_file summary : string).
Variables (response : SourceResponse) (attr : string).
Hypothesis status_attr : resp_status response = Some attr.

Lemma build_response_eq :
  build_response response = Ok [(KStr "description", VFolded (response_description response attr))].
Proof. unfold build_response, response_description. by rewrite status_attr. Qed.

(** A turn of the loop over the statuses writes one response object,
    which carries the description. *)
Lemma convert_status_described responses status responses' :
  convert_status options wadl_file summary response responses status = Ok responses' ->
  exists code swagger_response,
    py_int status = Ok code /\
    responses' = dict_set (KInt code) (VDict swagger_response) responses /\
    dict_get (KStr "description") swagger_response
      = Some (VFolded (response_description response attr)).
Proof.
  unfold convert_status. rewrite build_response_eq, bind_Ok.
  destruct (py_int status) as [code|e]; [|done]. rewrite bind_Ok.
  destruct (response_code_sample _ _ _ _) as [[sample|]|e]; [| |done]; simpl.
  - destruct (truthy sample); intros [= <-].
    + eexists code, _. split_and!; [done| |].
      * by rewrite dict_set_set.
      * reflexivity.
    + eexists code, _. split_and!; done.
  - intros [= <-]. eexists code, _. split_and!; done.
Qed.
End responses.

Section response_loop.
Context `{JsonModule}.
Variables (options : Options) (wadl_file summary : string).
Variables (response : SourceResponse) (attr : string).
Hypothesis status_attr : resp_status response = Some attr.

Lemma described_set responses code swagger_response code' :
  dict_get (KStr "description") swagger_response
    = Some (VFolded (response_description response attr)) ->
  described response attr responses code' \/ code' = code ->
  described response attr (dict_set (KInt code) (VDict swagger_response) responses) code'.
Proof.
  intros Hd Hc. destruct (decide (code' = code)) as [->|Hne].
  - exists swagger_response. by rewrite dict_get_set_eq.
  - destruct Hc as [(r & Hr & Hdr)|]; [|done].
    exists r. rewrite dict_get_set_ne; [done|congruence].
Qed.

(** The loop [for status in statuses] keeps the responses it has
    described and describes one for each status. *)
Lemma statuses_described statuses : forall responses responses',
  for_each (convert_status options wadl_file summary response) statuses responses
    = Ok responses' ->
  (forall code, described response attr responses code ->
                described response attr responses' code) /\
  (forall status, status ∈ statuses ->
     exists code, py_int status = Ok code /\ described response attr responses' code).
Proof.
  induction statuses as [|status statuses IH]; intros responses responses'; simpl.
  - intros [= <-]. split; [done|]. intros status Hin. by apply elem_of_nil in Hin.
  - destruct (convert_status _ _ _ _ responses status) as [r1|e] eqn:Hstep; [|done].
    rewrite bind_Ok. intros Hrest.
    destruct (convert_status_described _ _ _ _ _ status_attr _ _ _ Hstep)
      as (code & sr & Hcode & -> & Hd).
    destruct (IH _ _ Hrest) as [Hkeep Hall].
    split.
    + intros code' Hc. apply Hkeep. apply described_set; [done|by left].
    + intros st Hin. apply elem_of_cons in Hin as [->|Hin]; [|by apply Hall].
      exists code. split; [done|]. apply Hkeep. apply described_set; [done|by right].
Qed.
End response_loop.

(** C8, as the specification states it, fails for a response with several
    status codes and no usable documentation: the fallback names the whole
    [status] attribute, the same text under every code. *)
Lemma response_fallback_names_whole_attribute :
  let options := {| autofix := false; strict := false; nodoc := false; merge_dir := "." |} in
  let response := {| resp_status := Some "200 404"; resp_doc_text := None;
                     resp_json_media_type := None; resp_code_samples := [] |} in
  convert_response (H := PyJson.module) options "api.wadl" "List servers" response [] =
    Ok [(KStr "responses",
         VDict [(KInt 200, VDict [(KStr "description", VFolded "200 404 response")]);
                (KInt 404, VDict [(KStr "description", VFolded "200 404 response")])])].
Proof. reflexivity. Qed.

(** C8 (amended). For every status code in the whitespace-separated
    [status] list of a response, the response object built for that code has
    the documentation text of the response, blanks normalised, as its
    description; when the response has no documentation text the description
    is the whole [status] attribute followed by [" response"], the same for
    every code of the list. *)
Theorem response_descriptions `{JsonModule} options wadl_file summary response attr
    swagger_method result :
  resp_status response = Some attr ->
  convert_response options wadl_file summary response swagger_method = Ok result ->
  exists responses,
    dict_get (KStr "responses") result = Some (VDict responses) /\
    forall status, status ∈ split_ws attr ->
      exists code swagger_response,
        py_int status = Ok code /\
        dict_get (KInt code) responses = Some (VDict swagger_response) /\
        dict_get (KStr "description") swagger_response =
          Some (VFolded match resp_doc_text response with
                        | Some text => join " " (split_ws text)
                        | None => (attr ++ " response")%string
                        end).
Proof.
  intros Hattr. unfold convert_response, response_statuses. rewrite Hattr, bind_Ok.
  destruct (for_each _ (split_ws attr) []) as [responses|e] eqn:Hloop; [|done].
  rewrite bind_Ok. intros [= <-].
  exists responses. split; [by rewrite dict_get_set_eq|].
  intros status Hin.
  destruct (statuses_described _ _ _ _ _ Hattr _ _ _ Hloop) as [_ Hall].
  destruct (Hall status Hin) as (code & Hcode & sr & Hsr & Hd).
  by exists code, sr.
Qed.

Lemma response_descriptions_witness :
  let options := {| autofix := false; strict := false; nodoc := false; merge_dir := "." |} in
  let response := {| resp_status := Some "200 404"; resp_doc_text := Some "  The   list. ";
                     resp_json_media_type := None; resp_code_samples := [] |} in
  exists responses,
    dict_get (KStr "responses")
      [(KStr "responses",
        VDict [(KInt 200, VDict [(KStr "description", VFolded "The list.")]);
               (KInt 404, VDict [(KStr "description", VFolded "The list.")])])]
      = Some (VDict responses) /\
    forall status, status ∈ split_ws "200 404" ->
      exists code swagger_response,
        py_int status = Ok code /\
        dict_get (KInt code) responses = Some (VDict swagger_response) /\
        dict_get (KStr "description") swagger_response =
          Some (VFolded (join " " (split_ws "  The   list. "))).
Proof.
  intros options response.
  exact (response_descriptions (H := PyJson.module) options "api.wadl" "List servers"
           response "200 404" [] _ eq_refl eq_refl).
Defined.

(** ** Code samples *)

Lemma append_nil_l s : (EmptyString ++ s)%string = s.
Proof. reflexivity. Qed.

Lemma append_cons c s t : (String c s ++ t)%string = String c (s ++ t)%string.
Proof. reflexivity. Qed.

Ltac unfold_append := rewrite ?append_cons, ?append_nil_l in *.

Lemma starts_line_cons bol c header :
  starts_line bol (String c header) <-> starts_line (Ascii.eqb c LF) header.
Proof.
  unfold starts_line. split.
  - intros [[? _]|[b Hb]]; [done|].
    destruct b as [|c' b]; unfold_append.
    + injection Hb as -> ->. left. split; [done|]. apply Ascii.eqb_refl.
    + injection Hb as -> ->. right. by exists b.
  - intros [[-> Hc]|[b ->]].
    + apply Ascii.eqb_eq in Hc as ->. right. by exists EmptyString.
    + right. by exists (String c b).
Qed.

(** [last_json_line] finds the longest header that ends at a line start
    and is followed by an opening brace or bracket. *)
Lemma last_json_line_spec s : forall bol,
  match last_json_line bol s with
  | Some tail =>
      exists header,
        s = (header ++ tail)%string /\ starts_line bol header /\
        opens_json tail = true /\
        forall header' tail',
          s = (header' ++ tail')%string -> starts_line bol header' ->
          opens_json tail' = true ->
          (String.length header' <= String.length header)%nat
  | None =>
      forall header' tail',
        s = (header' ++ tail')%string -> starts_line bol header' ->
        opens_json tail' = false
  end.
Proof.
  induction s as [|c s IH]; intros bol.
  - simpl. intros header' tail' Hs _.
    destruct header'; unfold_append; [|done]. by subst.
  - simpl last_json_line. specialize (IH (Ascii.eqb c LF)).
    destruct (last_json_line (Ascii.eqb c LF) s) as [tail|].
    + destruct IH as (header & -> & Hstart & Hopen & Hmax).
      exists (String c header). split_and!; [done|by apply starts_line_cons|done|].
      intros header' tail' Hs Hstart' Hopen'.
      destruct header' as [|c' header']; simpl; [lia|].
      unfold_append. injection Hs as <- Hs.
      apply starts_line_cons in Hstart'.
      specialize (Hmax _ _ Hs Hstart' Hopen'). lia.
    + destruct (bol && opens_json (String c s)) eqn:Hhere.
      * apply andb_prop in Hhere as [-> Hopen].
        exists EmptyString. split_and!; [done|by left|done|].
        intros header' tail' Hs Hstart' Hopen'.
        destruct header' as [|c' header']; simpl; [lia|].
        unfold_append. injection Hs as <- Hs.
        apply starts_line_cons in Hstart'.
        rewrite (IH _ _ Hs Hstart') in Hopen'. done.
      * intros header' tail' Hs Hstart'.
        destruct header' as [|c' header'].
        -- unfold_append. subst tail'.
           destruct Hstart' as [[_ ->]|[b Hb]]; [done|]. by destruct b.
        -- unfold_append. injection Hs as <- Hs.
           apply starts_line_cons in Hstart'. by eapply IH.
Qed.

Lemma starts_line_true header : starts_line true header <-> line_start header.
Proof.
  unfold starts_line, line_start. split.
  - intros [[-> _]|Hb]; [by left|by right].
  - intros [->|Hb]; [by left|by right].
Qed.

(** The group the regular expression of [fix_json] captures is the last
    line of the sample that starts with an opening brace or bracket, with
    everything after it. *)
Lemma match_json_tail_spec sample tail :
  match_json_tail sample = Some tail <-> last_json_line_of sample tail.
Proof.
  unfold match_json_tail, last_json_line_of.
  pose proof (last_json_line_spec sample true) as Hspec.
  destruct (last_json_line true sample) as [t|].
  - destruct Hspec as (header & Hs & Hstart & Hopen & Hmax). split.
    + intros [= <-]. exists header. split_and!; [done|by apply starts_line_true|done|].
      intros header' tail' Hs' Hstart'. apply Hmax; [done|by apply starts_line_true].
    + intros (header2 & Hs2 & Hstart2 & Hopen2 & Hmax2).
      assert (String.length header = String.length header2) as Hlen.
      { apply Nat.le_antisymm.
        - apply (Hmax2 header t); [done|by apply starts_line_true|done].
        - apply (Hmax header2 tail); [done|by apply starts_line_true|done]. }
      f_equal. subst sample. clear -Hs2 Hlen.
      revert header2 Hs2 Hlen. induction header as [|c header IH]; intros [|c2 header2];
        unfold_append; simpl; try done.
      intros [= -> Hs] [= Hlen]. by eapply IH.
  - split; [done|]. intros (header & Hs & Hstart & Hopen & _).
    rewrite (Hspec header tail Hs) in Hopen; [done|by apply starts_line_true].
Qed.

Lemma opens_json_truthy s : opens_json s = true -> truthy s = true.
Proof. by destruct s. Qed.

(** C6, as the specification states it, fails on a sample whose JSON text
    has a later line that starts with a brace: the text from the first
    opening bracket on decodes, but [fix_json] keeps the part from the
    last such line on, which does not, and raises; no example gets attached. *)
Lemma fix_json_keeps_last_line :
  let options := {| autofix := true; strict := false; nodoc := false; merge_dir := "." |} in
  let response := {| resp_status := Some "200"; resp_doc_text := None;
                     resp_json_media_type := None;
                     resp_code_samples := [Some sample_array_under_header] |} in
  from_first_opening sample_array_under_header = Some sample_array /\
  PyJson.loads sample_array
    = Ok (PyJson.JArray [PyJson.JObject [([97%N], PyJson.JInt 1)]]) /\
  match_json_tail sample_array_under_header = Some sample_array_last_line /\
  fix_json (H := PyJson.module) options sample_array_under_header
    = Raise (ValueError "Extra data") /\
  convert_status (H := PyJson.module) options "api.wadl" "List" response [] "200"
    = Ok [(KInt 200, VDict [(KStr "description", VFolded "200 response");
                            (KStr "examples", VDict [])])].
Proof. repeat split. Qed.

(** C6 (amended). Under autofix, when a code sample does not decode,
    [fix_json] cuts it at the last line that starts with an opening brace
    or bracket; when the text from there on decodes, that text is the
    sample, and its data, printed by [json.dumps], is attached to the
    response under [examples["application/json"]]. *)
Theorem fix_json_recovers `{JsonModule} options wadl_file summary response attr
    responses status code sample msg tail data :
  autofix options = true ->
  json_loads sample = Raise (ValueError msg) ->
  match_json_tail sample = Some tail ->
  json_loads tail = Ok data ->
  resp_status response = Some attr ->
  last (resp_code_samples response) = Some (Some sample) ->
  py_int status = Ok code ->
  last_json_line_of sample tail /\
  fix_json options sample = Ok tail /\
  build_code_sample tail = [(KStr "application/json", VFolded (json_dumps data))] /\
  convert_status options wadl_file summary response responses status
    = Ok (dict_set (KInt code) (VDict (sampled_response response attr data)) responses).
Proof.
  intros Hfix Hbad Htail Hgood Hattr Hlast Hcode.
  assert (fix_json options sample = Ok tail) as Hfixed.
  { unfold fix_json. by rewrite Hbad, Hfix, Htail, Hgood. }
  assert (build_code_sample tail = [(KStr "application/json", VFolded (json_dumps data))])
    as Hex.
  { unfold build_code_sample. by rewrite Hgood. }
  split_and!; [by apply match_json_tail_spec|done|done|].
  unfold convert_status. rewrite (build_response_eq _ _ Hattr), bind_Ok, Hcode, bind_Ok.
  unfold response_code_sample. rewrite Hlast, Hfixed, bind_Ok.
  apply match_json_tail_spec in Htail as (header & _ & _ & Hopen & _).
  rewrite (opens_json_truthy _ Hopen), Hex. by rewrite dict_set_set.
Qed.

(** The example of the specification: a header line, then the object. *)
Lemma fix_json_recovers_witness :
  let options := {| autofix := true; strict := false; nodoc := false; merge_dir := "." |} in
  let response := {| resp_status := Some "200"; resp_doc_text := None;
                     resp_json_media_type := None;
                     resp_code_samples := [Some sample_under_header] |} in
  sample_under_header = ("X-Auth: abc" ++ String LF sample_object)%string /\
  last_json_line_of sample_under_header sample_object /\
  fix_json (H := PyJson.module) options sample_under_header = Ok sample_object /\
  build_code_sample (H := PyJson.module) sample_object
    = [(KStr "application/json", VFolded sample_object_pretty)] /\
  convert_status (H := PyJson.module) options "api.wadl" "Show" response [] "200"
    = Ok [(KInt 200,
           VDict [(KStr "description", VFolded "200 response");
                  (KStr "examples",
                   VDict [(KStr "application/json", VFolded sample_object_pretty)])])].
Proof.
  intros options response. split; [reflexivity|].
  exact (fix_json_recovers (H := PyJson.module) options "api.wadl" "Show" response "200"
           [] "200" 200 sample_under_header "No JSON object could be decoded"
           sample_object (PyJson.JObject [([105%N; 100%N], PyJson.JInt 1)])
           eq_refl eq_refl eq_refl eq_refl eq_refl eq_refl eq_refl).
Defined.

(** ** A code sample that does not decode *)


Section unparsable_sample.
Context `{JsonModule}.
Variables (options : Options) (wadl_file title : string) (defaults : odict).

(** The response, its statuses, and the text of its last code sample, on
    which [fix_json] raises. *)
Variables (response : SourceResponse) (attr text msg : string).
Hypothesis status_attr : resp_status response = Some attr.
Hypothesis last_sample : last (resp_code_samples response) = Some (Some text).
Hypothesis undecoded : fix_json options text = Raise (ValueError msg).

Variable summary : string.





(** Where the walk meets the response: after the resources [before], in
    [resource], after its methods [mbefore], in [method], all of which
    convert. *)
Variables (before after : list SourceResource) (resource : SourceResource).
Variables (mbefore mafter : list SourceMethod) (method : SourceMethod).
Variables (paths item : odict) (swagger_params params : list odict).
Variables (status : string) (statuses : list string) (code : Z).
Hypothesis walk_before :
  for_each (convert_resource options wadl_file) before [] = Ok paths.
Hypothesis resource_params :
  build_params options
    (default [] (res_json_params resource) ++ res_tag_params resource) []
    = Ok swagger_params.
Hypothesis resource_methods : res_methods resource = mbefore ++ method :: mafter.
Hypothesis walk_mbefore :
  for_each (convert_method options wadl_file) mbefore (set_parameters swagger_params [])
    = Ok item.
Hypothesis method_title : meth_title method = Some summary.
Hypothesis method_params :
  match meth_request method with
  | Some representations =>
      for_each (fun acc ps => build_params options ps acc) representations []
  | None => Ok []
  end = Ok params.
Hypothesis method_response : meth_response method = Some response.
Hypothesis first_status : split_ws attr = status :: statuses.
Hypothesis first_code : py_int status = Ok code.




End unparsable_sample.



(** ** Parameter lists *)

(** Under autofix no parameter of a list [build_params] has built is in the
    body. *)
Lemma build_params_without_body options ps : forall acc result,
  autofix options = true ->
  build_params options ps acc = Ok result ->
  Forall (fun sp => dict_get (KStr "in") sp <> Some (VStr "body")) acc ->
  Forall (fun sp => dict_get (KStr "in") sp <> Some (VStr "body")) result.
Proof.
  unfold build_params.
  induction ps as [|p ps IH]; intros acc result Hfix; simpl.
  - by intros [= <-].
  - destruct (add_param options acc p) as [acc'|e] eqn:Hadd; [|done].
    rewrite bind_Ok. intros Hrest Hacc. eapply IH; [done..|].
    unfold add_param in Hadd.
    destruct (build_param options p) as [[sp|]|e] eqn:Hb; [| |done];
      rewrite bind_Ok in Hadd; injection Hadd as <-; [|done].
    apply Forall_app. split; [done|]. apply Forall_singleton.
    destruct (build_param_fields _ _ _ Hb) as (location & _ & -> & _ & Hne).
    intros [= ->]. by apply Hne.
Qed.

(** Under autofix a body parameter whose type the mapper accepts leaves
    the list as it was. *)
Lemma add_param_body options acc p r :
  autofix options = true -> param_style p = "plain" ->
  xsd_to_json_type (Some (default "string" (param_type p))) = Ok r ->
  add_param options acc p = Ok acc.
Proof.
  intros Hfix Hstyle Hty. unfold add_param.
  by rewrite (build_param_body _ _ _ Hfix Hstyle Hty).
Qed.

(** * Further properties *)

(** ** More on merge_dicts *)

Lemma dict_set_new {V} k (v : V) d : dict_get k d = None -> dict_set k v d = d ++ [(k, v)].
Proof.
  induction d as [|[k' v'] d IH]; simpl; [done|].
  destruct (key_eqb k k'); [done|]. intros Hd. by rewrite IH.
Qed.

Lemma keys_dict_set_old {V} k (v v0 : V) d :
  dict_get k d = Some v0 -> keys (dict_set k v d) = keys d.
Proof. intros Hk. apply keys_dict_set_in. by eexists. Qed.

Lemma keys_app {V} (d e : list (key * V)) : keys (d ++ e) = keys d ++ keys e.
Proof. unfold keys. apply map_app. Qed.

Lemma elem_of_keys_dict_set {V} k' k (v : V) d :
  k' ∈ keys (dict_set k v d) <-> k' = k \/ k' ∈ keys d.
Proof.
  destruct (dict_get k d) as [v0|] eqn:Hk.
  - rewrite (keys_dict_set_old _ _ _ _ Hk). split; [by right|].
    intros [->|?]; [|done]. by eapply dict_get_Some_keys.
  - rewrite dict_set_new, keys_app by done. simpl.
    rewrite elem_of_app, list_elem_of_singleton. tauto.
Qed.

Lemma dict_get_app {V} k (d e : list (key * V)) :
  dict_get k (d ++ e) = match dict_get k d with Some v => Some v | None => dict_get k e end.
Proof.
  induction d as [|[k' v'] d IH]; simpl; [done|]. by destruct (key_eqb k k').
Qed.





Lemma keys_dict_set_prefix {V} k (v : V) d : keys d `prefix_of` keys (dict_set k v d).
Proof.
  destruct (dict_get k d) as [v0|] eqn:Hk.
  - by rewrite (keys_dict_set_old _ _ _ _ Hk).
  - rewrite dict_set_new, keys_app by done. by apply prefix_app_r.
Qed.

Lemma merge_keys_prefix b : forall a path a' r,
  merge_dicts a b path = (a', r) -> keys a `prefix_of` keys a'.
Proof.
  induction b as [|[k v] b IH]; intros a path a' r.
  - rewrite merge_dicts_nil. by intros [= <- <-].
  - destruct (merge_dicts_cases a k v b path) as
      [[Hnone ->]|[(da & db & Hda & -> & ->)|(va & Hva & Hleaf & ->)]].
    + intros Hrun. etrans; [|by eapply IH]. apply keys_dict_set_prefix.
    + destruct (merge_dicts da db (path ++ [key_str k])) as [da' [[]|e]].
      * intros Hrun. etrans; [|by eapply IH]. apply keys_dict_set_prefix.
      * intros [= <- <-]. apply keys_dict_set_prefix.
    + destruct (py_eq va v); [by apply IH|]. by intros [= <- <-].
Qed.



Lemma lookup_path_head_ne k vb b k0 p :
  k0 <> k -> lookup_path ((k, vb) :: b) (k0 :: p) = lookup_path b (k0 :: p).
Proof.
  intros Hne. apply key_eqb_neq in Hne.
  destruct p; simpl; by rewrite Hne.
Qed.

Lemma lookup_path_head_eq k vb b p v :
  lookup_path ((k, vb) :: b) (k :: p) = Some v ->
  (p = [] /\ v = vb) \/ (p <> [] /\ exists db, vb = VDict db /\ lookup_path db p = Some v).
Proof.
  destruct p as [|k1 p]; simpl; rewrite key_eqb_refl.
  - intros [= <-]. by left.
  - destruct vb; try done. intros Hl. right. split; [done|]. by eexists.
Qed.

Lemma lookup_path_at k d a p :
  p <> [] -> dict_get k a = Some (VDict d) -> lookup_path a (k :: p) = lookup_path d p.
Proof. intros Hp Hk. rewrite lookup_path_cons by done. by rewrite Hk. Qed.

Lemma brought_extends v1 v v' :
  brought v1 v -> (if is_dict v1 then is_dict v' = true else v' = v1) -> brought v' v.
Proof.
  unfold brought. destruct (is_dict v) eqn:Hv.
  - intros ->. done.
  - intros [->|Heq].
    + rewrite Hv. intros ->. by left.
    + destruct (is_dict v1) eqn:Hv1.
      * rewrite py_eq_dict_leaf in Heq; [done| |]; rewrite Hv1, Hv; done.
      * intros ->. by right.
Qed.

(** X3. After a merge that returns, everything [b] holds is in [a] at the
    same place: a mapping where [b] has a mapping, and where [b] has a leaf
    that leaf, or the equal value [a] had there. *)
Theorem merge_brings_defaults b : forall a path m,
  merge_dicts a b path = (m, Ok ()) ->
  forall p v, lookup_path b p = Some v ->
    exists v', lookup_path m p = Some v' /\ brought v' v.
Proof.
  induction b as [|k vb b IHv IHb] using odict_nested_ind; intros a path m Hrun p v Hp.
  - by destruct p as [|? []].
  - destruct p as [|k0 p]; [done|].
    destruct (decide (k0 = k)) as [->|Hne].
    + destruct (merge_dicts_cases a k vb b path) as
        [[Hnone Heq]|[(da & db & Hda & -> & Heq)|(va & Hva & Hleaf & Heq)]];
        rewrite Heq in Hrun; clear Heq.
      * pose proof (merge_extends _ _ _ _ _ Hrun) as Hext.
        assert (lookup_path (dict_set k vb a) (k :: p) = Some v) as Hl.
        { rewrite dict_set_new by done.
          destruct p as [|k1 p]; simpl in *; rewrite key_eqb_refl in Hp;
            rewrite dict_get_app, Hnone; simpl; by rewrite key_eqb_refl. }
        destruct (Hext _ _ Hl) as (v' & Hm & Hk). exists v'. split; [done|].
        eapply brought_extends; [|exact Hk]. unfold brought.
        destruct (is_dict v); [done|by left].
      * destruct (merge_dicts da db (path ++ [key_str k])) as [da' [[]|e]] eqn:Hsub; [|done].
        pose proof (merge_extends _ _ _ _ _ Hrun) as Hext.
        apply lookup_path_head_eq in Hp as [[-> ->]|(Hp & db' & [= <-] & Hl)].
        -- destruct (Hext [k] (VDict da')) as (v' & Hm & Hk).
           { simpl. by rewrite dict_get_set_eq. }
           exists v'. split; done.
        -- destruct (IHv db eq_refl _ _ _ Hsub _ _ Hl) as (v1 & Hl1 & Hb1).
           destruct (Hext (k :: p) v1) as (v' & Hm & Hk).
           { rewrite (lookup_path_at k da') by (done || by rewrite dict_get_set_eq). done. }
           exists v'. split; [done|]. by eapply brought_extends.
      * destruct (py_eq va vb) eqn:Heq; [|done].
        pose proof (merge_extends _ _ _ _ _ Hrun) as Hext.
        assert (is_dict va = false /\ is_dict vb = false) as [Hna Hnb].
        { destruct (is_dict va) eqn:Ha, (is_dict vb) eqn:Hb; try done;
            rewrite py_eq_dict_leaf in Heq; rewrite ?Ha, ?Hb; done. }
        apply lookup_path_head_eq in Hp as [[-> ->]|(Hp & db' & -> & Hl)]; [|done].
        destruct (Hext [k] va Hva) as (v' & Hm & Hk). rewrite Hna in Hk. subst v'.
        exists va. split; [done|]. unfold brought. rewrite Hnb. by right.
    + rewrite lookup_path_head_ne in Hp by done.
      destruct (merge_dicts_cases a k vb b path) as
        [[Hnone Heq]|[(da & db & Hda & -> & Heq)|(va & Hva & Hleaf & Heq)]];
        rewrite Heq in Hrun; clear Heq.
      * by eapply IHb.
      * destruct (merge_dicts da db (path ++ [key_str k])) as [da' [[]|e]]; [|done].
        by eapply IHb.
      * destruct (py_eq va vb); [|done]. by eapply IHb.
Qed.

Lemma merge_brings_defaults_witness :
  let a := [(KStr "info", VDict [(KStr "title", VStr "T")]); (KStr "x", VInt 1)] in
  let b := [(KStr "x", VBool true); (KStr "info", VDict [(KStr "version", VStr "1")])] in
  let m := [(KStr "info", VDict [(KStr "title", VStr "T"); (KStr "version", VStr "1")]);
            (KStr "x", VInt 1)] in
  (exists v', lookup_path m [KStr "info"; KStr "version"] = Some v' /\
              brought v' (VStr "1")) /\
  (exists v', lookup_path m [KStr "x"] = Some v' /\ brought v' (VBool true)).
Proof.
  intros a b m. split.
  - exact (merge_brings_defaults b a [] m eq_refl [KStr "info"; KStr "version"] (VStr "1")
             eq_refl).
  - exact (merge_brings_defaults b a [] m eq_refl [KStr "x"] (VBool true) eq_refl).
Defined.




(** ** More on the object store *)

(** X4. [merge_dicts] only adds entries: whatever the references of the
    store share, and also when the call raises, every dictionary is still
    there and every entry it had still has its value. *)
Theorem store_merge_only_adds depth h a b path h' r :
  Store.merge_dicts depth h a b path = (h', r) ->
  forall l d, h !! l = Some d ->
    exists d', h' !! l = Some d' /\
               forall k v, dict_get k d = Some v -> dict_get k d' = Some v.
Proof. intros Hrun. by destruct (store_merge_grows _ _ _ _ _ _ _ Hrun). Qed.

Lemma store_merge_only_adds_witness :
  let h : Store.store :=
    <[1%nat := [(KStr "z", Store.SVal (VInt 1))]]>
      (<[2%nat := [(KStr "x", Store.SVal (VInt 5)); (KStr "z", Store.SVal (VInt 2))]]> ∅) in
  let h' : Store.store :=
    <[1%nat := [(KStr "z", Store.SVal (VInt 1)); (KStr "x", Store.SVal (VInt 5))]]> h in
  Store.merge_dicts 8 h 1%nat 2%nat [] = (h', Raise (PyException "Conflict at z")) /\
  exists d', h' !! 1%nat = Some d' /\
             forall k v, dict_get k [(KStr "z", Store.SVal (VInt 1))] = Some v ->
                         dict_get k d' = Some v.
Proof.
  intros h h'.
  assert (Store.merge_dicts 8 h 1%nat 2%nat [] = (h', Raise (PyException "Conflict at z")))
    as Hrun by (vm_compute; reflexivity).
  split; [exact Hrun|].
  apply (store_merge_only_adds 8 h 1%nat 2%nat [] h' _ Hrun 1%nat).
  vm_compute. reflexivity.
Defined.

Lemma dict_get_Some_elem {V} k (v : V) d : dict_get k d = Some v -> (k, v) ∈ d.
Proof.
  induction d as [|[k' v'] d IH]; simpl; [done|].
  destruct (key_eqb k k') eqn:E.
  - apply key_eqb_eq in E as ->. intros [= ->]. apply list_elem_of_here.
  - intros Hd. apply list_elem_of_further. by apply IH.
Qed.

(** X23. The entries [merge_dicts] takes from the defaults are not copies:
    on a store that holds the generated mapping as a tree of its own
    objects, apart from those of the defaults, a key of [b] that [a] does
    not have and that holds a dictionary gets in [a] the reference [b]
    holds, to the same object, which the call leaves as it was, like [b]
    itself. *)
Theorem store_merge_shares depth h a b ta tb Fa B path da db h' :
  own h Fa (Store.SRef a) (VDict ta) -> repr h B (Store.SRef b) (VDict tb) -> Fa ## B ->
  unique_keys tb = true -> (dict_size tb <= depth)%nat ->
  h !! a = Some da -> h !! b = Some db ->
  Store.merge_dicts depth h a b path = (h', Ok a) ->
  exists da',
    h' !! a = Some da' /\ h' !! b = Some db /\
    forall k lb, dict_get k da = None -> dict_get k db = Some (Store.SRef lb) ->
      dict_get k da' = Some (Store.SRef lb) /\ h' !! lb = h !! lb.
Proof.
  intros Hown Hrepr Hdisj Hu Hsize Ha Hb.
  destruct depth as [|n].
  { pose proof (value_size_pos (VDict tb)). unfold dict_size in Hsize. lia. }
  inversion Hown as [|? oa ? F HaF Ha0 Hitems]; subst.
  inversion Hrepr as [|? ob ? HbB Hb0 Hentries]; subst.
  rewrite Ha in Ha0. injection Ha0 as <-. rewrite Hb in Hb0. injection Hb0 as <-.
  simpl. rewrite Hb.
  pose proof (Forall2_entry_keys _ _ _ Hentries) as Hkeys.
  destruct (merge_dicts ta tb path) as [ta' r] eqn:Hrun.
  edestruct (merge_keys_refines n (store_merge_refines n) h a b path db B F Hb HbB) as
    (h1 & da' & Hloop & Ha' & _ & Hsame & Hshare);
    [set_solver|done|set_solver|exact Hentries|done|done| |done|exact Ha| |exact Hrun|].
  - intros k sv Hin. apply dict_get_entry; [|done].
    rewrite Hkeys. by apply unique_keys_NoDup.
  - by apply own_items_mixed.
  - rewrite Hloop. intros [= <- Hr]. destruct r as [[]|e]; [|done].
    exists da'. split_and!; [done| |].
    + rewrite Hsame; [done|]. set_solver.
    + intros k lb Hnone Hk. split.
      * apply Hshare; [|done..]. by apply dict_get_Some_elem.
      * apply Hsame. apply dict_get_Some_elem in Hk.
        apply list_elem_of_lookup in Hk as [i Hi].
        destruct (Forall2_lookup_l _ _ _ _ _ Hentries Hi) as ([k' t] & _ & [_ Hrb]).
        simpl in Hrb. inversion Hrb; subst. set_solver.
Qed.

Lemma store_merge_shares_witness :
  let info := [(KStr "title", Store.SVal (VStr "T"))] in
  let h : Store.store :=
    <[1%nat := [(KStr "swagger", Store.SVal (VStr "2.0"))]]>
      (<[2%nat := [(KStr "info", Store.SRef 3%nat)]]> (<[3%nat := info]> ∅)) in
  let h' : Store.store :=
    <[1%nat := [(KStr "swagger", Store.SVal (VStr "2.0")); (KStr "info", Store.SRef 3%nat)]]> h in
  Store.merge_dicts 8 h 1%nat 2%nat [] = (h', Ok 1%nat) /\
  exists da',
    h' !! 1%nat = Some da' /\ h' !! 2%nat = Some [(KStr "info", Store.SRef 3%nat)] /\
    forall k lb,
      dict_get k [(KStr "swagger", Store.SVal (VStr "2.0"))] = None ->
      dict_get k [(KStr "info", Store.SRef 3%nat)] = Some (Store.SRef lb) ->
      dict_get k da' = Some (Store.SRef lb) /\ h' !! lb = h !! lb.
Proof.
  intros info h h'.
  assert (Store.merge_dicts 8 h 1%nat 2%nat [] = (h', Ok 1%nat)) as Hrun
    by (vm_compute; reflexivity).
  split; [exact Hrun|].
  apply (store_merge_shares 8 h 1%nat 2%nat [(KStr "swagger", VStr "2.0")]
           [(KStr "info", VDict [(KStr "title", VStr "T")])]
           ({[1%nat]} ∪ (∅ ∪ ∅)) ({[2%nat]} ∪ {[3%nat]}) [] _ _ h').
  - eapply own_dict; [set_solver|reflexivity|].
    apply own_cons; [by constructor|constructor|set_solver].
  - eapply repr_dict; [set_solver|reflexivity|].
    constructor; [|constructor]. split; [reflexivity|]. simpl.
    eapply repr_dict; [set_solver|reflexivity|]. repeat constructor.
  - set_solver.
  - reflexivity.
  - unfold dict_size. simpl. lia.
  - reflexivity.
  - reflexivity.
  - exact Hrun.
Defined.

(** ** The document *)

Lemma seed_keys title defaults :
  keys (seed title defaults) = [KStr "swagger"; KStr "info"; KStr "consumes"; KStr "produces"].
Proof.
  unfold seed.
  destruct (dict_get (KStr "info") defaults), (dict_get (KStr "consumes") defaults),
    (dict_get (KStr "produces") defaults); reflexivity.
Qed.

Lemma seed_swagger title defaults :
  dict_get (KStr "swagger") (seed title defaults) = Some (VStr "2.0").
Proof.
  unfold seed.
  destruct (dict_get (KStr "info") defaults), (dict_get (KStr "consumes") defaults),
    (dict_get (KStr "produces") defaults); reflexivity.
Qed.

Lemma dict_get_not_in_keys {V} k (d : list (key * V)) : k ∉ keys d -> dict_get k d = None.
Proof. apply dict_get_None_keys. Qed.



(** X6. A document [convert] returns starts with the keys [swagger],
    [info], [consumes], [produces] and [paths], in this order; its [swagger]
    is ["2.0"], whatever the defaults say, and its [paths] holds what the walk
    over the resources has built. *)
Theorem convert_document_head `{JsonModule} options wadl_file title defaults resources m :
  convert options wadl_file title defaults resources = Ok m ->
  (exists rest, keys m = generated_keys ++ rest) /\
  dict_get (KStr "swagger") m = Some (VStr "2.0") /\
  exists paths paths',
    for_each (convert_resource options wadl_file) resources [] = Ok paths /\
    dict_get (KStr "paths") m = Some (VDict paths') /\ extends paths' paths.
Proof.
  unfold convert.
  destruct (for_each (convert_resource options wadl_file) resources []) as [paths|e]; [|done].
  rewrite bind_Ok. cbv zeta.
  assert (dict_get (KStr "paths") (seed title defaults) = None) as Hnp.
  { apply dict_get_not_in_keys. rewrite seed_keys. set_unfold. naive_solver. }
  rewrite (dict_set_new _ _ _ Hnp).
  destruct (merge_dicts _ defaults []) as [m' [[]|e]] eqn:Hrun; [|done].
  unfold merge_result. simpl. intros [= <-].
  pose proof (merge_keys_prefix _ _ _ _ _ Hrun) as [rest Hpre].
  pose proof (merge_extends _ _ _ _ _ Hrun) as Hext.
  rewrite keys_app, seed_keys in Hpre. split_and!.
  - exists rest. by rewrite Hpre.
  - eapply extends_get_leaf; [done| |done].
    rewrite dict_get_app, seed_swagger. done.
  - destruct (extends_get_dict _ _ (KStr "paths") paths Hext) as (paths' & Hp & Hsub).
    { by rewrite dict_get_app, Hnp; simpl. }
    by exists paths, paths'.
Qed.

Lemma convert_document_head_witness :
  let options := {| autofix := true; strict := false; nodoc := false; merge_dir := "." |} in
  let defaults := [(KStr "host", VStr "api.example.com"); (KStr "swagger", VStr "2.0")] in
  let m := [(KStr "swagger", VStr "2.0");
            (KStr "info", VDict [(KStr "title", VStr "T"); (KStr "version", VStr "Unknown")]);
            (KStr "consumes", json_only); (KStr "produces", json_only);
            (KStr "paths", VDict []); (KStr "host", VStr "api.example.com")] in
  (exists rest, keys m = generated_keys ++ rest) /\
  dict_get (KStr "swagger") m = Some (VStr "2.0") /\
  exists paths paths',
    for_each (convert_resource (H := PyJson.module) options "api.wadl") [] [] = Ok paths /\
    dict_get (KStr "paths") m = Some (VDict paths') /\ extends paths' paths.
Proof.
  intros options defaults m.
  exact (convert_document_head (H := PyJson.module) options "api.wadl" "T" defaults [] m
           eq_refl).
Defined.

(** ** Loops that fill a mapping *)

Section dict_loop.
Context {A : Type}.
Variable body : odict -> A -> outcome odict.
Variable kf : A -> key.
Hypothesis body_sets : forall st x st',
  body st x = Ok st' ->
  exists v, body [] x = Ok [(kf x, v)] /\ st' = dict_set (kf x) v st.

Lemma loop_other_keys xs k : forall st st',
  for_each body xs st = Ok st' -> (forall x, x ∈ xs -> kf x <> k) ->
  dict_get k st' = dict_get k st.
Proof.
  induction xs as [|x xs IH]; intros st st'; simpl.
  - by intros [= <-].
  - destruct (body st x) as [st1|e] eqn:Hstep; [|done]. rewrite bind_Ok.
    intros Hrest Hne. destruct (body_sets _ _ _ Hstep) as (v & _ & ->).
    rewrite (IH _ _ Hrest) by (intros y Hy; apply Hne; by right).
    apply dict_get_set_ne. intros Heq. eapply Hne; [by left|done].
Qed.

Lemma loop_last xs1 x xs2 st st' :
  for_each body (xs1 ++ x :: xs2) st = Ok st' ->
  (forall y, y ∈ xs2 -> kf y <> kf x) ->
  exists v, body [] x = Ok [(kf x, v)] /\ dict_get (kf x) st' = Some v.
Proof.
  rewrite for_each_app.
  destruct (for_each body xs1 st) as [st1|e]; [|done]. rewrite bind_Ok. simpl.
  destruct (body st1 x) as [st2|e] eqn:Hstep; [|done]. rewrite bind_Ok.
  intros Hrest Hne. destruct (body_sets _ _ _ Hstep) as (v & Hv & ->).
  exists v. split; [done|].
  rewrite (loop_other_keys _ _ _ _ Hrest Hne). apply dict_get_set_eq.
Qed.

Lemma loop_keys xs : forall st st',
  for_each body xs st = Ok st' ->
  forall k, k ∈ keys st' <-> k ∈ keys st \/ exists x, x ∈ xs /\ k = kf x.
Proof.
  induction xs as [|x xs IH]; intros st st'; simpl.
  - intros [= <-] k. split; [by left|]. intros [?|(x & Hx & _)]; [done|].
    by apply elem_of_nil in Hx.
  - destruct (body st x) as [st1|e] eqn:Hstep; [|done]. rewrite bind_Ok.
    intros Hrest k. destruct (body_sets _ _ _ Hstep) as (v & _ & ->).
    rewrite (IH _ _ Hrest k), elem_of_keys_dict_set. split.
    + intros [[->|Hk]|(y & Hy & ->)].
      * right. exists x. split; [by left|done].
      * by left.
      * right. exists y. split; [by right|done].
    + intros [Hk|(y & Hy & ->)].
      * left. by right.
      * apply elem_of_cons in Hy as [->|Hy]; [left; by left|].
        right. by exists y.
Qed.
End dict_loop.

(** ** Paths and operations *)

Section walk.
Context `{JsonModule}.
Variables (options : Options) (wadl_file : string).

Lemma convert_resource_sets paths resource paths' :
  convert_resource options wadl_file paths resource = Ok paths' ->
  exists item,
    convert_resource options wadl_file [] resource
      = Ok [(KStr (swagger_path options resource), VDict item)] /\
    paths' = dict_set (KStr (swagger_path options resource)) (VDict item) paths.
Proof.
  unfold convert_resource, swagger_path. cbv zeta.
  destruct (build_params options _ []) as [ps|e]; [|done]. rewrite !bind_Ok.
  destruct (for_each _ (res_methods resource) _) as [item|e]; [|done]. rewrite !bind_Ok.
  intros [= <-]. by eexists.
Qed.

Lemma convert_method_sets item method item' :
  convert_method options wadl_file item method = Ok item' ->
  exists operation,
    convert_method options wadl_file [] method
      = Ok [(KStr (swagger_verb options method), VDict operation)] /\
    item' = dict_set (KStr (swagger_verb options method)) (VDict operation) item.
Proof.
  unfold convert_method, swagger_verb. cbv zeta.
  destruct (build_summary method) as [summary|e]; [|done]. rewrite !bind_Ok.
  destruct (match meth_request method with Some _ => _ | None => _ end) as [ps|e]; [|done].
  rewrite !bind_Ok.
  destruct (match meth_response method with Some _ => _ | None => _ end) as [op|e]; [|done].
  rewrite !bind_Ok. intros [= <-]. by eexists.
Qed.

Lemma convert_resource_body paths resource paths' :
  convert_resource options wadl_file paths resource = Ok paths' ->
  exists v,
    convert_resource options wadl_file [] resource
      = Ok [(KStr (swagger_path options resource), v)] /\
    paths' = dict_set (KStr (swagger_path options resource)) v paths.
Proof.
  intros Hc. destruct (convert_resource_sets _ _ _ Hc) as (item & ? & ?). by eexists.
Qed.

Lemma convert_method_body item method item' :
  convert_method options wadl_file item method = Ok item' ->
  exists v,
    convert_method options wadl_file [] method
      = Ok [(KStr (swagger_verb options method), v)] /\
    item' = dict_set (KStr (swagger_verb options method)) v item.
Proof.
  intros Hc. destruct (convert_method_sets _ _ _ Hc) as (op & ? & ?). by eexists.
Qed.
End walk.

(** X7. The keys of [paths] are the paths of the resources, and no other
    key; with autofix on each of them starts with a slash. *)
Theorem paths_of_resources `{JsonModule} options wadl_file resources paths :
  for_each (convert_resource options wadl_file) resources [] = Ok paths ->
  (forall k, k ∈ keys paths <->
             exists r, r ∈ resources /\ k = KStr (swagger_path options r)) /\
  (autofix options = true -> forall k, k ∈ keys paths -> exists s, k = KStr (String "/" s)).
Proof.
  intros Hwalk.
  pose proof (loop_keys _ (fun r => KStr (swagger_path options r))
                (convert_resource_body options wadl_file) _ _ _ Hwalk) as Hkeys.
  assert (forall k, k ∈ keys paths <->
                    exists r, r ∈ resources /\ k = KStr (swagger_path options r)) as Hk.
  { intros k. rewrite Hkeys. split; [|by right]. intros [Hin|?]; [|done].
    by apply elem_of_nil in Hin. }
  split; [done|]. intros Hfix k Hin. apply Hk in Hin as (r & _ & ->).
  unfold swagger_path. rewrite Hfix. simpl.
  destruct (res_path r) as [|c p] eqn:Hp; simpl; [by eexists|].
  destruct (Ascii.eqb c "/") eqn:Hc; simpl; [|by eexists].
  apply Ascii.eqb_eq in Hc as ->. by eexists.
Qed.

Lemma paths_of_resources_witness :
  let options := {| autofix := true; strict := false; nodoc := false; merge_dir := "." |} in
  let resource path := {| res_path := path; res_json_params := None; res_tag_params := [];
                          res_methods := [] |} in
  let paths := [(KStr "/servers", VDict []); (KStr "/images", VDict [])] in
  (forall k, k ∈ keys paths <->
             exists r, r ∈ [resource "servers"; resource "/images"] /\
                       k = KStr (swagger_path options r)) /\
  (autofix options = true -> forall k, k ∈ keys paths -> exists s, k = KStr (String "/" s)).
Proof.
  intros options resource paths.
  exact (paths_of_resources (H := PyJson.module) options "api.wadl"
           [resource "servers"; resource "/images"] paths eq_refl).
Defined.

(** X8. Path items are never merged: when the loop over the resources
    meets a path again, the item of the earlier turn is replaced, and the
    item under a path is the one built from the last resource with that
    path alone. *)
Theorem last_resource_wins `{JsonModule} options wadl_file before resource after paths :
  for_each (convert_resource options wadl_file) (before ++ resource :: after) [] = Ok paths ->
  (forall r, r ∈ after -> swagger_path options r <> swagger_path options resource) ->
  exists item,
    convert_resource options wadl_file [] resource
      = Ok [(KStr (swagger_path options resource), VDict item)] /\
    dict_get (KStr (swagger_path options resource)) paths = Some (VDict item).
Proof.
  intros Hwalk Hlast.
  destruct (loop_last _ (fun r => KStr (swagger_path options r))
              (convert_resource_body options wadl_file) _ _ _ _ _ Hwalk) as (v & Hv & Hget).
  { intros r Hr [= Heq]. by eapply Hlast. }
  destruct (convert_resource options wadl_file [] resource) as [p|e] eqn:Hone; [|done].
  destruct (convert_resource_sets _ _ _ _ _ Hone) as (item & Hitem & _).
  rewrite Hone in Hitem. injection Hv as ->. injection Hitem as ->.
  by exists item.
Qed.

(** X9. The operation kept under a verb is the one built from the last
    method with that verb alone; under autofix a COPY method counts as a
    PUT, and no operation is written under [copy]. *)
Theorem last_method_wins `{JsonModule} options wadl_file before method after item0 item :
  for_each (convert_method options wadl_file) (before ++ method :: after) item0 = Ok item ->
  (forall m, m ∈ after -> swagger_verb options m <> swagger_verb options method) ->
  (exists operation,
     convert_method options wadl_file [] method
       = Ok [(KStr (swagger_verb options method), VDict operation)] /\
     dict_get (KStr (swagger_verb options method)) item = Some (VDict operation)) /\
  (autofix options = true -> dict_get (KStr "copy") item = dict_get (KStr "copy") item0).
Proof.
  intros Hloop Hlast. split.
  - destruct (loop_last _ (fun m => KStr (swagger_verb options m))
                (convert_method_body options wadl_file) _ _ _ _ _ Hloop) as (v & Hv & Hget).
    { intros m Hm [= Heq]. by eapply Hlast. }
    destruct (convert_method options wadl_file [] method) as [p|e] eqn:Hone; [|done].
    destruct (convert_method_sets _ _ _ _ _ Hone) as (op & Hop & _).
    rewrite Hone in Hop. injection Hv as ->. injection Hop as ->.
    by exists op.
  - intros Hfix.
    apply (loop_other_keys _ (fun m => KStr (swagger_verb options m))
             (convert_method_body options wadl_file) _ _ _ _ Hloop).
    intros m _ [= Heq]. unfold swagger_verb in Heq. rewrite Hfix in Heq. simpl in Heq.
    destruct (String.eqb (meth_name m) "copy") eqn:Hname; [done|].
    rewrite Heq in Hname. done.
Qed.

Lemma last_method_wins_witness :
  let options := {| autofix := true; strict := false; nodoc := false; merge_dir := "." |} in
  let method name title :=
    {| meth_name := name; meth_rax_id := None; meth_title := Some title;
       meth_short_desc := None; meth_request := None; meth_response := None |} in
  let operation title : odict :=
    [(KStr "summary", VStr title); (KStr "produces", VList []); (KStr "responses", VDict [])] in
  let item := [(KStr "put", VDict (operation "Copy object"))] in
  (exists op,
     convert_method (H := PyJson.module) options "api.wadl" [] (method "copy" "Copy object")
       = Ok [(KStr (swagger_verb options (method "copy" "Copy object")), VDict op)] /\
     dict_get (KStr (swagger_verb options (method "copy" "Copy object"))) item
       = Some (VDict op)) /\
  (autofix options = true -> dict_get (KStr "copy") item = dict_get (KStr "copy") []).
Proof.
  intros options method operation item.
  apply (last_method_wins (H := PyJson.module) options "api.wadl"
           [method "put" "Update object"] (method "copy" "Copy object") [] [] item eq_refl).
  intros m Hm. by apply elem_of_nil in Hm.
Defined.

Lemma last_resource_wins_witness :
  let options := {| autofix := true; strict := false; nodoc := false; merge_dir := "." |} in
  let method name title :=
    {| meth_name := name; meth_rax_id := None; meth_title := Some title;
       meth_short_desc := None; meth_request := None; meth_response := None |} in
  let resource path methods :=
    {| res_path := path; res_json_params := None; res_tag_params := [];
       res_methods := methods |} in
  let operation title : odict :=
    [(KStr "summary", VStr title); (KStr "produces", VList []); (KStr "responses", VDict [])] in
  let second := resource "/servers" [method "post" "Create server"] in
  let paths := [(KStr "/servers", VDict [(KStr "post", VDict (operation "Create server"))])] in
  for_each (convert_resource (H := PyJson.module) options "api.wadl")
    [resource "servers" [method "get" "List servers"]; second] [] = Ok paths /\
  exists item,
    convert_resource (H := PyJson.module) options "api.wadl" [] second
      = Ok [(KStr (swagger_path options second), VDict item)] /\
    dict_get (KStr (swagger_path options second)) paths = Some (VDict item).
Proof.
  intros options method resource operation second paths. split; [reflexivity|].
  apply (last_resource_wins (H := PyJson.module) options "api.wadl"
           [resource "servers" [method "get" "List servers"]] second [] paths eq_refl).
  intros r Hr. by apply elem_of_nil in Hr.
Defined.

(** ** The shape of an operation *)

(** X10. The keys of an operation, in their order: [summary], [produces]
    and [responses] always; [operationId], [description] and [parameters]
    when the method has a Rackspace id, a short description, and a parameter
    that is not dropped.  [produces] lists the JSON media type of the
    response, or nothing. *)
Theorem operation_shape `{JsonModule} options wadl_file method operation :
  convert_method options wadl_file [] method
    = Ok [(KStr (swagger_verb options method), VDict operation)] ->
  exists params,
    match meth_request method with
    | Some representations =>
        for_each (fun acc ps => build_params options ps acc) representations [] = Ok params
    | None => params = []
    end /\
    keys operation =
      (if meth_rax_id method is Some _ then [KStr "operationId"] else [])
      ++ [KStr "summary"]
      ++ (if meth_short_desc method is Some _ then [KStr "description"] else [])
      ++ [KStr "produces"; KStr "responses"]
      ++ (if params is [] then [] else [KStr "parameters"]) /\
    dict_get (KStr "parameters") operation
      = (if params is [] then None else Some (VList (map VDict params))) /\
    dict_get (KStr "produces") operation
      = Some (VList match meth_response method with
                    | Some response =>
                        match resp_json_media_type response with
                        | Some media_type => [VStr media_type]
                        | None => []
                        end
                    | None => []
                    end).
Proof.
  unfold convert_method. cbv zeta. 
  destruct (build_summary method) as [summary|e]; [|done]. rewrite bind_Ok.
  destruct (match meth_request method with Some _ => _ | None => _ end) as [params|e] eqn:Hreq;
    [|done].
  rewrite bind_Ok.
  destruct (match meth_response method with Some _ => _ | None => _ end) as [op|e] eqn:Hresp;
    [|done].
  rewrite bind_Ok. intros [= <-]. exists params. split.
  { destruct (meth_request method); [done|]. by injection Hreq as <-. }
  revert Hresp. unfold convert_response.
  destruct (meth_response method) as [response|].
  - destruct (response_statuses wadl_file response) as [statuses|e]; [|done]. rewrite bind_Ok.
    destruct (for_each _ statuses []) as [responses|e]; [|done]. rewrite bind_Ok.
    intros [= <-].
    destruct (meth_rax_id method), (meth_short_desc method), params,
      (resp_json_media_type response); done.
  - intros [= <-].
    destruct (meth_rax_id method), (meth_short_desc method), params; done.
Qed.

Lemma operation_shape_witness :
  let options := {| autofix := true; strict := false; nodoc := true; merge_dir := "." |} in
  let p name style := {| param_name := name; param_style := style;
                         param_is_required := false; param_type := None;
                         param_doc := None |} in
  let method :=
    {| meth_name := "post"; meth_rax_id := Some "createServer";
       meth_title := Some "Create server"; meth_short_desc := None;
       meth_request := Some [[p "payload" "plain"]; [p "limit" "query"]];
       meth_response := None |} in
  let limit : odict :=
    [(KStr "name", VStr "limit"); (KStr "required", VBool false);
     (KStr "in", VStr "query"); (KStr "type", VStr "string")] in
  let operation : odict :=
    [(KStr "operationId", VStr "createServer"); (KStr "summary", VStr "Create server");
     (KStr "produces", VList []); (KStr "responses", VDict []);
     (KStr "parameters", VList [VDict limit])] in
  exists params,
    for_each (fun acc ps => build_params options ps acc)
      [[p "payload" "plain"]; [p "limit" "query"]] [] = Ok params /\
    keys operation =
      [KStr "operationId"] ++ [KStr "summary"] ++ []
      ++ [KStr "produces"; KStr "responses"]
      ++ (if params is [] then [] else [KStr "parameters"]) /\
    dict_get (KStr "parameters") operation
      = (if params is [] then None else Some (VList (map VDict params))) /\
    dict_get (KStr "produces") operation = Some (VList []).
Proof.
  intros options p method limit operation.
  exact (operation_shape (H := PyJson.module) options "api.wadl" method operation eq_refl).
Defined.

(** ** More on parameters *)

Lemma style_to_in_cases style :
  (style = "matrix" /\ style_to_in style = Ok "unknown") \/
  (style = "query" /\ style_to_in style = Ok "query") \/
  (style = "header" /\ style_to_in style = Ok "header") \/
  (style = "template" /\ style_to_in style = Ok "path") \/
  (style = "plain" /\ style_to_in style = Ok "body") \/
  ((style ∉ styles) /\ style_to_in style = Raise (KeyError style)).
Proof.
  unfold style_to_in, styles. simpl.
  destruct (String.eqb_spec style "matrix") as [->|H1]; [by left|].
  destruct (String.eqb_spec style "query") as [->|H2]; [right; by left|].
  destruct (String.eqb_spec style "header") as [->|H3]; [do 2 right; by left|].
  destruct (String.eqb_spec style "template") as [->|H4]; [do 3 right; by left|].
  destruct (String.eqb_spec style "plain") as [->|H5]; [do 4 right; by left|].
  do 5 right. split; [|done]. set_unfold. naive_solver.
Qed.

Lemma typed_param name req location json_type :
  json_type ∈ type_fragments \/ (exists s, json_type = VStr s) ->
  let param0 := dict_set (KStr "in") (VStr location)
                  [(KStr "name", VStr name); (KStr "required", VBool req)] in
  (match json_type with
   | VDict fragment => dict_update param0 fragment
   | _ => dict_set (KStr "type") json_type param0
   end) = [(KStr "name", VStr name); (KStr "required", VBool req); (KStr "in", VStr location)]
          ++ type_entries json_type.
Proof.
  unfold type_fragments. intros [Hin|[s ->]]; [|done].
  set_unfold. destruct Hin as [->|[->|[->|[->|[->|[->|[->|[]]]]]]]]; done.
Qed.

Lemma type_entries_keys json_type :
  json_type ∈ type_fragments \/ (exists s, json_type = VStr s) ->
  dict_get (KStr "required") (type_entries json_type) = None /\
  dict_get (KStr "description") (type_entries json_type) = None.
Proof.
  unfold type_fragments. intros [Hin|[s ->]]; [|done].
  set_unfold. destruct Hin as [->|[->|[->|[->|[->|[->|[->|[]]]]]]]]; done.
Qed.

Lemma dict_set_third {V} k1 v1 k2 (v2 v2' : V) rest :
  key_eqb k2 k1 = false ->
  dict_set k2 v2' ((k1, v1) :: (k2, v2) :: rest) = (k1, v1) :: (k2, v2') :: rest.
Proof. intros Hne. simpl. by rewrite Hne, key_eqb_refl. Qed.

Lemma build_param_entries options p param :
  build_param options p = Ok (Some param) ->
  exists location mapped,
    style_to_in (param_style p) = Ok location /\
    xsd_to_json_type (Some (default "string" (param_type p))) = Ok mapped /\
    (autofix options = true -> location <> "body") /\
    param =
      [ (KStr "name", VStr (param_name p));
        (KStr "required",
         VBool (autofix options && String.eqb location "path" || param_is_required p));
        (KStr "in", VStr location) ]
      ++ type_entries (settled_type options (default "string" (param_type p)) mapped)
      ++ doc_entries options p.
Proof.
  unfold build_param.
  destruct (style_to_in (param_style p)) as [location|e] eqn:Hstyle; [|done].
  rewrite bind_Ok. cbv beta zeta.
  destruct (xsd_to_json_type (Some (default "string" (param_type p))))
    as [mapped|e] eqn:Hty; [|done].
  rewrite bind_Ok.
  change (match mapped with
          | Some t => t
          | None => if autofix options then VStr "string"
                    else VStr (default "string" (param_type p))
          end) with (settled_type options (default "string" (param_type p)) mapped).
  set (jt := settled_type options (default "string" (param_type p)) mapped).
  assert (jt ∈ type_fragments \/ (exists s, jt = VStr s)) as Hjt.
  { subst jt. destruct mapped as [v|]; simpl.
    - left. by eapply xsd_to_json_type_range.
    - right. destruct (autofix options); by eexists. }
  rewrite (typed_param _ _ _ _ Hjt).
  destruct (type_entries_keys _ Hjt) as [Hnr Hnd].
  set (entries := type_entries jt) in *.
  unfold field_is, required_is_not_True. simpl dict_get. simpl py_eq.
  intros Hbuild. exists location, mapped. split; [done|]. split; [done|].
  assert (forall req, 
    (if nodoc options then
       [(KStr "name", VStr (param_name p)); (KStr "required", VBool req);
        (KStr "in", VStr location)] ++ entries
     else match param_doc p with
          | Some d => dict_set (KStr "description") (VFolded d)
                        ([(KStr "name", VStr (param_name p)); (KStr "required", VBool req);
                          (KStr "in", VStr location)] ++ entries)
          | None => [(KStr "name", VStr (param_name p)); (KStr "required", VBool req);
                     (KStr "in", VStr location)] ++ entries
          end)
    = [(KStr "name", VStr (param_name p)); (KStr "required", VBool req);
       (KStr "in", VStr location)] ++ entries ++ doc_entries options p) as Hdoc.
  { intros req. unfold doc_entries. destruct (nodoc options); [by rewrite app_nil_r|].
    destruct (param_doc p) as [d|]; [|by rewrite app_nil_r].
    rewrite dict_set_new; [by rewrite <- app_assoc|].
    simpl. exact Hnd. }
  destruct (autofix options); simpl andb in *.
  - destruct (String.eqb location "body") eqn:Hbody; [done|].
    split; [intros _ ->; done|].
    injection Hbuild as <-.
    destruct (String.eqb location "path"), (param_is_required p); simpl; apply Hdoc.
  - split; [done|]. injection Hbuild as <-. apply Hdoc.
Qed.

(** X11. A parameter that is not dropped has the entries [name],
    [required], [in], the entries of its type and its [description], in this
    order and nothing else.  Its [type] is the name of a JSON type; only
    with autofix off can it be something else, the type name of the WADL as
    it stands, when the type mapper does not know it. *)
Theorem build_param_shape options p param :
  build_param options p = Ok (Some param) ->
  exists location mapped t,
    style_to_in (param_style p) = Ok location /\
    xsd_to_json_type (Some (default "string" (param_type p))) = Ok mapped /\
    (autofix options = true -> location <> "body") /\
    param =
      [ (KStr "name", VStr (param_name p));
        (KStr "required",
         VBool (autofix options && String.eqb location "path" || param_is_required p));
        (KStr "in", VStr location) ]
      ++ type_entries (settled_type options (default "string" (param_type p)) mapped)
      ++ doc_entries options p /\
    dict_get (KStr "type") param = Some (VStr t) /\
    (t ∈ json_types \/
     (autofix options = false /\ t = default "string" (param_type p) /\ mapped = None)).
Proof.
  intros Hbuild.
  destruct (build_param_entries _ _ _ Hbuild) as (location & mapped & Hs & Hty & Hnb & ->).
  assert (exists t,
            dict_get (KStr "type")
              (type_entries (settled_type options (default "string" (param_type p)) mapped))
              = Some (VStr t) /\
            (t ∈ json_types \/
             (autofix options = false /\ t = default "string" (param_type p) /\
              mapped = None))) as (t & Ht & Hkind).
  { destruct mapped as [v|]; simpl.
    - apply xsd_to_json_type_range in Hty. unfold type_fragments in Hty. set_unfold.
      destruct Hty as [->|[->|[->|[->|[->|[->|[->|[]]]]]]]]; simpl; eexists;
        (split; [reflexivity|left; unfold json_types; set_unfold; tauto]).
    - destruct (autofix options); simpl; eexists; (split; [reflexivity|]).
      + left. unfold json_types. set_unfold. tauto.
      + by right. }
  exists location, mapped, t. split_and!; try done.
  simpl. by rewrite dict_get_app, Ht.
Qed.

Lemma build_param_shape_witness :
  let options := {| autofix := true; strict := false; nodoc := false; merge_dir := "." |} in
  let p := {| param_name := "id"; param_style := "template";
              param_is_required := false; param_type := Some "xsd:anyURI";
              param_doc := Some "The id." |} in
  let param := [(KStr "name", VStr "id"); (KStr "required", VBool true);
                (KStr "in", VStr "path"); (KStr "type", VStr "string");
                (KStr "format", VStr "uri"); (KStr "description", VFolded "The id.")] in
  exists location mapped t,
    style_to_in (param_style p) = Ok location /\
    xsd_to_json_type (Some (default "string" (param_type p))) = Ok mapped /\
    (autofix options = true -> location <> "body") /\
    param =
      [ (KStr "name", VStr (param_name p));
        (KStr "required",
         VBool (autofix options && String.eqb location "path" || param_is_required p));
        (KStr "in", VStr location) ]
      ++ type_entries (settled_type options (default "string" (param_type p)) mapped)
      ++ doc_entries options p /\
    dict_get (KStr "type") param = Some (VStr t) /\
    (t ∈ json_types \/
     (autofix options = false /\ t = default "string" (param_type p) /\ mapped = None)).
Proof.
  intros options p param. exact (build_param_shape options p param eq_refl).
Defined.

Lemma xsd_to_json_type_error full_type e :
  xsd_to_json_type full_type = Raise e -> e = ValueError "too many values to unpack".
Proof.
  destruct full_type as [t|]; simpl; [|done].
  destruct (contains_char ":" t) eqn:Hc; [|done].
  pose proof (split_on_sep _ _ Hc) as Hlen.
  destruct (split_on ":" t) as [|x [|y [|z parts]]]; simpl in *; try lia; [done|].
  by intros [= <-].
Qed.

Lemma build_param_returns options p location mapped :
  style_to_in (param_style p) = Ok location ->
  xsd_to_json_type (Some (default "string" (param_type p))) = Ok mapped ->
  exists r, build_param options p = Ok r.
Proof.
  intros Hs Hty. unfold build_param. rewrite Hs, bind_Ok. cbv beta zeta.
  rewrite Hty, bind_Ok.
  destruct (autofix options && field_is "in" "body" _); by eexists.
Qed.

(** X12. [build_param] raises in two cases only: a style that
    [style_to_in] does not know, with the [KeyError] of the style, and
    otherwise a type name with two colons or more, with the [ValueError] of
    the type mapper. *)
Theorem build_param_errors options p e :
  build_param options p = Raise e <->
  ((param_style p ∉ styles) /\ e = KeyError (param_style p)) \/
  (param_style p ∈ styles /\
   (3 <= List.length (split_on ":" (default "string" (param_type p))))%nat /\
   e = ValueError "too many values to unpack").
Proof.
  pose proof (xsd_to_json_type_raises (Some (default "string" (param_type p)))) as Hraise.
  destruct (style_to_in (param_style p)) as [location|e0] eqn:Hstyle.
  - assert (param_style p ∈ styles) as Hin.
    { destruct (style_to_in_cases (param_style p)) as
        [[-> _]|[[-> _]|[[-> _]|[[-> _]|[[-> _]|[_ Hr]]]]]];
        try (unfold styles; set_unfold; tauto). congruence. }
    destruct (xsd_to_json_type (Some (default "string" (param_type p)))) as [mapped|e1] eqn:Hty.
    + destruct (build_param_returns options p _ _ Hstyle Hty) as [r ->].
      split; [done|]. intros [[Hnot _]|(_ & Hlen & _)]; [done|].
      destruct Hraise as [_ Hraise]. destruct Hraise as [e' He']; [by eexists|done].
    + pose proof (xsd_to_json_type_error _ _ Hty) as ->.
      unfold build_param. rewrite Hstyle, bind_Ok. cbv beta zeta. rewrite Hty, bind_Raise.
      split.
      * intros [= <-]. right. split; [done|]. split; [|done].
        destruct Hraise as [Hraise _]. destruct Hraise as (t & [= <-] & Hlen); [by eexists|done].
      * intros [[Hnot _]|(_ & _ & ->)]; done.
  - assert ((param_style p ∉ styles) /\ e0 = KeyError (param_style p)) as [Hnot ->].
    { destruct (style_to_in_cases (param_style p)) as
        [[_ Hr]|[[_ Hr]|[[_ Hr]|[[_ Hr]|[[_ Hr]|[Hn Hr]]]]]]; try congruence.
      split; [done|]. congruence. }
    unfold build_param. rewrite Hstyle, bind_Raise. split.
    + intros [= <-]. by left.
    + intros [[_ ->]|[Hin _]]; done.
Qed.

Lemma build_param_dropped options p r :
  build_param options p = Ok r -> (r = None <-> dropped options p = true).
Proof.
  unfold dropped. intros Hbuild. destruct r as [param|].
  - destruct (build_param_entries _ _ _ Hbuild) as (location & mapped & Hs & _ & Hnb & _).
    split; [done|]. intros [Hfix Hplain]%andb_prop. apply String.eqb_eq in Hplain.
    rewrite Hplain, style_to_in_plain in Hs. injection Hs as <-. by destruct Hnb.
  - split; [|done]. intros _. revert Hbuild. unfold build_param.
    destruct (style_to_in_cases (param_style p)) as
      [[Hs ->]|[[Hs ->]|[[Hs ->]|[[Hs ->]|[[Hs ->]|[Hs ->]]]]]]; [..|done];
      rewrite bind_Ok; cbv beta zeta;
      (destruct (xsd_to_json_type (Some (default "string" (param_type p))))
        as [mapped|e] eqn:Hty; [|done]); rewrite bind_Ok.
    5: { rewrite Hs. destruct (autofix options); [done|]. simpl. done. }
    all: match goal with
         | |- context [match ?jt with VDict fragment => dict_update ?p0 fragment | _ => _ end] =>
             rewrite (typed_param (param_name p) (param_is_required p) _ jt)
         end;
         try (destruct mapped as [v|];
              [left; by eapply xsd_to_json_type_range
              |right; destruct (autofix options); by eexists]);
         unfold field_is; simpl; rewrite andb_false_r; done.
Qed.

(** X13. [build_params] keeps the parameters in their order, each under
    its name, and leaves out the dropped ones only: the body parameters
    when autofix is on, none when it is off. *)
Theorem build_params_names options ps : forall acc result,
  build_params options ps acc = Ok result ->
  exists built,
    result = acc ++ built /\
    map (dict_get (KStr "name")) built
      = map (fun p => Some (VStr (param_name p)))
            (List.filter (fun p => negb (dropped options p)) ps).
Proof.
  unfold build_params.
  induction ps as [|p ps IH]; intros acc result; simpl.
  - intros [= <-]. exists []. by rewrite app_nil_r.
  - destruct (add_param options acc p) as [acc'|e] eqn:Hadd; [|done].
    rewrite bind_Ok. intros Hrest. destruct (IH _ _ Hrest) as (built & -> & Hnames).
    unfold add_param in Hadd.
    destruct (build_param options p) as [r|e] eqn:Hb; [|done].
    rewrite bind_Ok in Hadd. injection Hadd as <-.
    pose proof (build_param_dropped _ _ _ Hb) as Hd.
    destruct r as [param|].
    + destruct (dropped options p); [by destruct Hd as [_ Hd]; specialize (Hd eq_refl)|].
      simpl. exists (param :: built). split; [by rewrite <- app_assoc|].
      simpl. f_equal; [|done].
      by destruct (build_param_entries _ _ _ Hb) as (location & mapped & _ & _ & _ & ->).
    + destruct Hd as [Hd _]. rewrite (Hd eq_refl). simpl. by exists built.
Qed.

Lemma build_params_names_witness :
  let options := {| autofix := true; strict := false; nodoc := true; merge_dir := "." |} in
  let p name style := {| param_name := name; param_style := style;
                         param_is_required := false; param_type := None;
                         param_doc := None |} in
  let ps := [p "limit" "query"; p "payload" "plain"; p "X-Auth-Token" "header"] in
  let q name location : odict :=
    [(KStr "name", VStr name); (KStr "required", VBool false);
     (KStr "in", VStr location); (KStr "type", VStr "string")] in
  exists built,
    [q "limit" "query"; q "X-Auth-Token" "header"] = [] ++ built /\
    map (dict_get (KStr "name")) built
      = map (fun p => Some (VStr (param_name p)))
            (List.filter (fun p => negb (dropped options p)) ps).
Proof.
  intros options p ps q.
  exact (build_params_names options ps [] _ eq_refl).
Defined.

(** ** More on the type mapper *)

(** X14. A type name written without a prefix, with an empty prefix, or
    with the prefix [xs] or [xsd] is the same name to the type mapper. *)
Theorem xsd_namespace_aliases t :
  contains_char ":" t = false ->
  xsd_to_json_type (Some (String ":" t)) = xsd_to_json_type (Some t) /\
  xsd_to_json_type (Some ("xs:" ++ t)%string) = xsd_to_json_type (Some t) /\
  xsd_to_json_type (Some ("xsd:" ++ t)%string) = xsd_to_json_type (Some t).
Proof.
  intros Hc. pose proof (split_on_no_sep _ _ Hc) as Hs.
  unfold_append. unfold xsd_to_json_type. rewrite Hc. simpl. rewrite Hs. simpl. done.
Qed.

Lemma xsd_namespace_aliases_witness :
  xsd_to_json_type (Some ":dateTime") = xsd_to_json_type (Some "dateTime") /\
  xsd_to_json_type (Some "xs:dateTime") = xsd_to_json_type (Some "dateTime") /\
  xsd_to_json_type (Some "xsd:dateTime") = xsd_to_json_type (Some "dateTime").
Proof. exact (xsd_namespace_aliases "dateTime" eq_refl). Defined.

(** X15. The type mapper answers every type name that has one colon at
    most, with a type of its table or with nothing; a name with more colons
    makes the unpacking of its parts raise. *)
Theorem xsd_to_json_type_outcomes full_type :
  (forall t, full_type = Some t -> (3 <= List.length (split_on ":" t))%nat ->
     xsd_to_json_type full_type = Raise (ValueError "too many values to unpack")) /\
  ((forall t, full_type = Some t -> (List.length (split_on ":" t) <= 2)%nat) ->
     exists r, xsd_to_json_type full_type = Ok r /\
               forall v, r = Some v -> v ∈ type_fragments).
Proof.
  pose proof (xsd_to_json_type_raises full_type) as [Hr1 Hr2].
  destruct (xsd_to_json_type full_type) as [r|e] eqn:Hx.
  - split.
    + intros t Ht Hlen. destruct Hr2 as [e He]; [by exists t|done].
    + intros _. exists r. split; [done|]. intros v ->.
      by eapply xsd_to_json_type_range.
  - pose proof (xsd_to_json_type_error _ _ Hx) as ->. split; [done|].
    intros Hle. destruct Hr1 as (t & Ht & Hlen); [by eexists|].
    specialize (Hle t Ht). lia.
Qed.

(** ** More on fix_json *)

(** X16. What [fix_json] returns is the sample or the end of it, and it
    decodes, but for one case: under autofix, a sample that does not decode
    and has no line starting with a brace or bracket comes back as it is.
    With autofix off the sample comes back unchanged; and [fix_json] returns
    its own result unchanged. *)
Theorem fix_json_result `{JsonModule} options sample fixed :
  fix_json options sample = Ok fixed ->
  (exists header, sample = (header ++ fixed)%string) /\
  ((exists data, json_loads fixed = Ok data) \/
   (autofix options = true /\ fixed = sample /\ match_json_tail sample = None /\
    exists msg, json_loads sample = Raise (ValueError msg))) /\
  (autofix options = false -> fixed = sample) /\
  fix_json options fixed = Ok fixed.
Proof.
  unfold fix_json at 1.
  destruct (json_loads sample) as [data|e] eqn:Hload.
  - intros [= <-]. split_and!.
    + by exists EmptyString.
    + left. by exists data.
    + done.
    + unfold fix_json. by rewrite Hload.
  - destruct e; try done.
    destruct (autofix options) eqn:Hfix; [|done].
    destruct (match_json_tail sample) as [tail|] eqn:Htail.
    + destruct (json_loads tail) as [data|e] eqn:Hgood; [|done].
      simpl. intros [= <-]. split_and!.
      * apply match_json_tail_spec in Htail as (header & Hs & _). by exists header.
      * left. by exists data.
      * done.
      * unfold fix_json. by rewrite Hgood.
    + intros [= <-]. split_and!.
      * by exists EmptyString.
      * right. split_and!; [done..|]. by eexists.
      * done.
      * unfold fix_json. by rewrite Hload, Hfix, Htail.
Qed.

Lemma fix_json_result_witness :
  let options := {| autofix := true; strict := false; nodoc := false; merge_dir := "." |} in
  (exists header, sample_under_header = (header ++ sample_object)%string) /\
  ((exists data, PyJson.loads sample_object = Ok data) \/
   (autofix options = true /\ sample_object = sample_under_header /\
    match_json_tail sample_under_header = None /\
    exists msg, PyJson.loads sample_under_header = Raise (ValueError msg))) /\
  (autofix options = false -> sample_object = sample_under_header) /\
  fix_json (H := PyJson.module) options sample_object = Ok sample_object.
Proof.
  intros options.
  exact (fix_json_result (H := PyJson.module) options sample_under_header sample_object
           eq_refl).
Defined.

(** ** The status codes of a response *)

Lemma statuses_keys `{JsonModule} options wadl_file summary response attr statuses :
  resp_status response = Some attr ->
  forall responses responses',
  for_each (convert_status options wadl_file summary response) statuses responses
    = Ok responses' ->
  forall k, k ∈ keys responses' <->
    k ∈ keys responses \/
    exists status code, status ∈ statuses /\ py_int status = Ok code /\ k = KInt code.
Proof.
  intros Hattr. induction statuses as [|status statuses IH]; intros responses responses'; simpl.
  - intros [= <-] k. split; [by left|]. intros [?|(s & c & Hs & _)]; [done|].
    by apply elem_of_nil in Hs.
  - destruct (convert_status _ _ _ _ responses status) as [r1|e] eqn:Hstep; [|done].
    rewrite bind_Ok. intros Hrest k.
    destruct (convert_status_described _ _ _ _ _ Hattr _ _ _ Hstep)
      as (code & sr & Hcode & -> & _).
    rewrite (IH _ _ Hrest k), elem_of_keys_dict_set. split.
    + intros [[->|Hk]|(s & c & Hs & Hc & ->)].
      * right. exists status, code. split_and!; [by left|done..].
      * by left.
      * right. exists s, c. split_and!; [by right|done..].
    + intros [Hk|(s & c & Hs & Hc & ->)].
      * left. by right.
      * apply elem_of_cons in Hs as [->|Hs].
        -- left. left. congruence.
        -- right. by exists s, c.
Qed.

Lemma dict_set_NoDup {V} k (v : V) d : NoDup (keys d) -> NoDup (keys (dict_set k v d)).
Proof.
  intros Hd. destruct (dict_get k d) as [v0|] eqn:Hk.
  - by rewrite (keys_dict_set_old _ _ _ _ Hk).
  - rewrite dict_set_new, keys_app by done. simpl.
    apply NoDup_app. split_and!; [done| |apply NoDup_singleton].
    intros k' Hin ->%list_elem_of_singleton. by apply dict_get_None_keys in Hk.
Qed.

Lemma statuses_NoDup `{JsonModule} options wadl_file summary response attr statuses :
  resp_status response = Some attr ->
  forall responses responses',
  for_each (convert_status options wadl_file summary response) statuses responses
    = Ok responses' ->
  NoDup (keys responses) -> NoDup (keys responses').
Proof.
  intros Hattr. induction statuses as [|status statuses IH]; intros responses responses'; simpl.
  - by intros [= <-].
  - destruct (convert_status _ _ _ _ responses status) as [r1|e] eqn:Hstep; [|done].
    rewrite bind_Ok. intros Hrest Hnd.
    destruct (convert_status_described _ _ _ _ _ Hattr _ _ _ Hstep)
      as (code & sr & Hcode & -> & _).
    eapply IH; [done|]. by apply dict_set_NoDup.
Qed.

(** X18. The [responses] of an operation has one entry for each status
    code of the [status] attribute of the response, under the code as an
    integer, and no other entry; a code written twice, or in two ways, is
    one entry. *)
Theorem response_codes `{JsonModule} options wadl_file summary response swagger_method result :
  convert_response options wadl_file summary response swagger_method = Ok result ->
  exists attr responses,
    resp_status response = Some attr /\
    dict_get (KStr "responses") result = Some (VDict responses) /\
    NoDup (keys responses) /\
    forall k, k ∈ keys responses <->
      exists status code, status ∈ split_ws attr /\ py_int status = Ok code /\ k = KInt code.
Proof.
  unfold convert_response, response_statuses.
  destruct (resp_status response) as [attr|] eqn:Hattr; [|done]. rewrite bind_Ok.
  destruct (for_each _ (split_ws attr) []) as [responses|e] eqn:Hloop; [|done].
  rewrite bind_Ok. intros [= <-].
  exists attr, responses. split_and!; [done|by rewrite dict_get_set_eq| |].
  - eapply statuses_NoDup; [done..|]. simpl. constructor.
  - intros k. rewrite (statuses_keys _ _ _ _ _ _ Hattr _ _ Hloop k).
    split; [|by right]. intros [Hin|?]; [|done]. by apply elem_of_nil in Hin.
Qed.

Lemma response_codes_witness :
  let options := {| autofix := false; strict := false; nodoc := false; merge_dir := "." |} in
  let response := {| resp_status := Some "200 404 +200"; resp_doc_text := None;
                     resp_json_media_type := None; resp_code_samples := [] |} in
  let result : odict :=
    [(KStr "responses",
      VDict [(KInt 200, VDict [(KStr "description", VFolded "200 404 +200 response")]);
             (KInt 404, VDict [(KStr "description", VFolded "200 404 +200 response")])])] in
  exists attr responses,
    resp_status response = Some attr /\
    dict_get (KStr "responses") result = Some (VDict responses) /\
    NoDup (keys responses) /\
    forall k, k ∈ keys responses <->
      exists status code, status ∈ split_ws attr /\ py_int status = Ok code /\ k = KInt code.
Proof.
  intros options response result.
  exact (response_codes (H := PyJson.module) options "api.wadl" "List servers" response []
           result eq_refl).
Defined.

Lemma convert_status_object `{JsonModule} options wadl_file summary response :
  exists object, forall responses status responses',
    convert_status options wadl_file summary response responses status = Ok responses' ->
    exists code, responses' = dict_set (KInt code) (VDict object) responses.
Proof.
  unfold convert_status.
  destruct (build_response response) as [sr|e]; [|by exists []].
  destruct (response_code_sample options wadl_file summary response) as [[sample|]|e].
  - destruct (truthy sample) eqn:Hsample.
    + exists (dict_set (KStr "examples") (VDict (build_code_sample sample)) sr).
      intros responses status responses'. rewrite bind_Ok.
      destruct (py_int status) as [code|e]; [|done]. rewrite !bind_Ok, Hsample.
      intros [= <-]. exists code. by rewrite dict_set_set.
    + exists sr. intros responses status responses'. rewrite bind_Ok.
      destruct (py_int status) as [code|e]; [|done]. rewrite !bind_Ok, Hsample.
      intros [= <-]. by exists code.
  - exists sr. intros responses status responses'. rewrite bind_Ok.
    destruct (py_int status) as [code|e]; [|done]. rewrite !bind_Ok.
    intros [= <-]. by exists code.
  - exists []. intros responses status responses'. rewrite bind_Ok.
    destruct (py_int status) as [code|e']; [|done]. by rewrite bind_Ok, bind_Raise.
Qed.

(** X19. The status codes of a response share one response object: the
    same description and the same examples are stored under each of them. *)
Theorem response_objects_equal `{JsonModule} options wadl_file summary response
    swagger_method result :
  convert_response options wadl_file summary response swagger_method = Ok result ->
  exists responses object,
    dict_get (KStr "responses") result = Some (VDict responses) /\
    forall k, k ∈ keys responses -> dict_get k responses = Some (VDict object).
Proof.
  unfold convert_response.
  destruct (response_statuses wadl_file response) as [statuses|e]; [|done]. rewrite bind_Ok.
  destruct (for_each _ statuses []) as [responses|e] eqn:Hloop; [|done].
  rewrite bind_Ok. intros [= <-].
  destruct (convert_status_object options wadl_file summary response) as [object Hobj].
  exists responses, object. split; [by rewrite dict_get_set_eq|].
  assert (forall k, k ∈ keys ([] : odict) -> dict_get k ([] : odict) = Some (VDict object)) as Hinit.
  { intros k Hk. by apply elem_of_nil in Hk. }
  revert Hloop Hinit. generalize ([] : odict) as start.
  induction statuses as [|status statuses IH]; intros start; simpl.
  - by intros [= <-].
  - destruct (convert_status _ _ _ _ start status) as [r1|e] eqn:Hstep; [|done].
    rewrite bind_Ok. intros Hrest Hstart. apply (IH _ Hrest).
    destruct (Hobj _ _ _ Hstep) as [code ->].
    intros k [->|Hk]%elem_of_keys_dict_set.
    + apply dict_get_set_eq.
    + destruct (decide (k = KInt code)) as [->|Hne]; [apply dict_get_set_eq|].
      rewrite dict_get_set_ne by done. by apply Hstart.
Qed.

Lemma response_objects_equal_witness :
  let options := {| autofix := false; strict := false; nodoc := false; merge_dir := "." |} in
  let response := {| resp_status := Some "200 203"; resp_doc_text := Some "The server.";
                     resp_json_media_type := Some "application/json";
                     resp_code_samples := [Some sample_object] |} in
  let object : odict :=
    [(KStr "description", VFolded "The server.");
     (KStr "examples", VDict [(KStr "application/json", VFolded sample_object_pretty)])] in
  let result : odict :=
    [(KStr "produces", VList [VStr "application/json"]);
     (KStr "responses", VDict [(KInt 200, VDict object); (KInt 203, VDict object)])] in
  exists responses object,
    dict_get (KStr "responses") result = Some (VDict responses) /\
    forall k, k ∈ keys responses -> dict_get k responses = Some (VDict object).
Proof.
  intros options response object result.
  exact (response_objects_equal (H := PyJson.module) options "api.wadl" "Show server"
           response [] result eq_refl).
Defined.

(** ** The defaults file *)

Lemma rsplit_char_none c s : contains_char c s = false -> rsplit_char c s = None.
Proof.
  induction s as [|c' s IH]; simpl; [done|].
  intros [Hc Hs]%orb_false_elim. by rewrite IH, Hc.
Qed.

Lemma rsplit_char_last c before after :
  contains_char c after = false ->
  rsplit_char c (before ++ String c after)%string = Some (before, after).
Proof.
  intros Ha. induction before as [|c' before IH]; unfold_append; simpl.
  - by rewrite rsplit_char_none, Ascii.eqb_refl.
  - by rewrite IH.
Qed.

Lemma contains_char_app c s t :
  contains_char c (s ++ t)%string = contains_char c s || contains_char c t.
Proof.
  induction s as [|c' s IH]; unfold_append; simpl; [done|].
  by rewrite IH, orb_assoc.
Qed.

Lemma splitext_name stem ext :
  contains_char "/" stem = false -> all_dots stem = false ->
  contains_char "/" ext = false -> contains_char "." ext = false ->
  splitext (stem ++ String "." ext)%string = (stem, String "." ext).
Proof.
  intros Hs Hd He Hx. unfold splitext.
  rewrite rsplit_char_none by (rewrite contains_char_app; simpl; by rewrite Hs, He).
  by rewrite rsplit_char_last, Hd.
Qed.

(** X20. The defaults of a Swagger file are read from the file of the
    merge directory that has its base name with the extension [yaml]: the
    directory and the extension of the Swagger file play no part, and
    without that file the defaults are empty. *)
Theorem default_swagger_dict_by_stem (isfile : string -> bool)
    (load_yaml : string -> outcome odict) options dir stem ext :
  contains_char "/" stem = false -> all_dots stem = false ->
  contains_char "/" ext = false -> contains_char "." ext = false ->
  let defaults_file := path_join (merge_dir options) (stem ++ ".yaml")%string in
  let defaults := if isfile defaults_file then load_yaml defaults_file else Ok [] in
  default_swagger_dict isfile load_yaml options
    (dir ++ String "/" (stem ++ String "." ext))%string = defaults /\
  default_swagger_dict isfile load_yaml options (stem ++ String "." ext)%string = defaults.
Proof.
  intros Hs Hd He Hx.
  assert (contains_char "/" (stem ++ String "." ext)%string = false) as Hname.
  { rewrite contains_char_app. simpl. by rewrite Hs, He. }
  cbv zeta. unfold default_swagger_dict, merge_file, path_tail.
  rewrite rsplit_char_last, rsplit_char_none by done.
  by rewrite splitext_name.
Qed.

Lemma default_swagger_dict_by_stem_witness :
  let options := {| autofix := true; strict := false; nodoc := false;
                    merge_dir := "defaults" |} in
  let isfile name := String.eqb name "defaults/compute.api.yaml" in
  let load_yaml (name : string) : outcome odict := Ok [(KStr "host", VStr "h")] in
  let defaults_file := path_join (merge_dir options) ("compute.api" ++ ".yaml")%string in
  let defaults := if isfile defaults_file then load_yaml defaults_file else Ok [] in
  defaults = Ok [(KStr "host", VStr "h")] /\
  default_swagger_dict isfile load_yaml options "out/v2/compute.api.json" = defaults /\
  default_swagger_dict isfile load_yaml options "compute.api.json" = defaults.
Proof.
  intros options isfile load_yaml defaults_file defaults. split; [reflexivity|].
  exact (default_swagger_dict_by_stem isfile load_yaml options "out/v2" "compute.api" "json"
           eq_refl eq_refl eq_refl eq_refl).
Defined.

(** ** Where a WADLParseError comes from *)

Lemma for_each_Raise {A S} (body : S -> A -> outcome S) xs : forall st e,
  for_each body xs st = Raise e -> exists st' x, x ∈ xs /\ body st' x = Raise e.
Proof.
  induction xs as [|x xs IH]; intros st e; simpl; [done|].
  destruct (body st x) as [st1|e1] eqn:Hstep.
  - rewrite bind_Ok. intros Hrest. destruct (IH _ _ Hrest) as (st' & y & Hy & Hbody).
    exists st', y. split; [by right|done].
  - rewrite bind_Raise. intros [= <-]. exists st, x. split; [by left|done].
Qed.

Lemma build_params_not_parse_error options ps acc m f l c :
  build_params options ps acc <> Raise (WADLParseError m f l c).
Proof.
  unfold build_params. intros Hr.
  apply for_each_Raise in Hr as (st & p & _ & Hadd). unfold add_param in Hadd.
  destruct (build_param options p) as [r|e] eqn:Hb; [done|].
  rewrite bind_Raise in Hadd. injection Hadd as ->.
  revert Hb. unfold build_param.
  destruct (style_to_in_cases (param_style p)) as
    [[_ ->]|[[_ ->]|[[_ ->]|[[_ ->]|[[_ ->]|[_ ->]]]]]]; [..|done];
    rewrite bind_Ok; cbv beta zeta;
    (destruct (xsd_to_json_type (Some (default "string" (param_type p))))
       as [mapped|e] eqn:Hty;
     [rewrite bind_Ok; by destruct (autofix options && _)
     |rewrite bind_Raise; intros [= ->]; by apply xsd_to_json_type_error in Hty]).
Qed.

Section parse_errors.
Context `{JsonModule}.
Hypothesis loads_errors : forall s e, json_loads s = Raise e -> exists msg, e = ValueError msg.
Variables (options : Options) (wadl_file : string).

Lemma fix_json_errors text e :
  fix_json options text = Raise e -> exists msg, e = ValueError msg.
Proof.
  unfold fix_json. destruct (json_loads text) as [data|e0] eqn:Hload; [done|].
  destruct (loads_errors _ _ Hload) as [msg ->].
  destruct (autofix options); [|intros [= <-]; by eexists].
  destruct (match_json_tail text) as [tail|]; [|done].
  destruct (json_loads tail) as [data|e1] eqn:Htail; [done|].
  rewrite bind_Raise. intros [= <-]. by eapply loads_errors.
Qed.

Lemma convert_status_parse_error summary response responses status m f l c :
  convert_status options wadl_file summary response responses status
    = Raise (WADLParseError m f l c) ->
  strict options = true /\ m = "Unparsable code sample" /\ f = wadl_file /\ l = summary /\
  exists msg, c = ValueError msg.
Proof.
  unfold convert_status.
  destruct (build_response response) as [sr|e] eqn:Hb.
  2: { rewrite bind_Raise. intros [= ->]. revert Hb. unfold build_response.
       by destruct (resp_status response). }
  rewrite bind_Ok.
  destruct (py_int status) as [code|e] eqn:Hc.
  2: { rewrite bind_Raise. intros [= ->]. revert Hc. unfold py_int.
       repeat case_match; done. }
  rewrite bind_Ok.
  destruct (response_code_sample options wadl_file summary response) as [cs|e] eqn:Hs.
  { rewrite bind_Ok. destruct cs as [sample|]; [destruct (truthy sample)|]; done. }
  rewrite bind_Raise. intros [= ->]. revert Hs. unfold response_code_sample.
  destruct (last (resp_code_samples response)) as [[text|]|]; [|done..].
  destruct (fix_json options text) as [fixed|e] eqn:Hfix; [done|].
  destruct (fix_json_errors _ _ Hfix) as [msg ->].
  destruct (strict options); [|done]. intros [= <- <- <- <-]. split_and!; try done.
  by eexists.
Qed.

Lemma convert_method_parse_error item method m f l c :
  convert_method options wadl_file item method = Raise (WADLParseError m f l c) ->
  strict options = true /\ m = "Unparsable code sample" /\ f = wadl_file /\
  meth_title method = Some l /\ exists msg, c = ValueError msg.
Proof.
  unfold convert_method. cbv zeta. unfold build_summary.
  destruct (meth_title method) as [title|]; [|done]. rewrite bind_Ok.
  destruct (match meth_request method with Some _ => _ | None => _ end) as [ps|e] eqn:Hreq.
  2: { rewrite bind_Raise. intros [= ->]. exfalso.
       destruct (meth_request method) as [reps|]; [|done].
       apply for_each_Raise in Hreq as (st & rep & _ & Hrep).
       by eapply build_params_not_parse_error. }
  rewrite bind_Ok.
  destruct (match meth_response method with Some _ => _ | None => _ end) as [op|e] eqn:Hresp;
    [done|].
  rewrite bind_Raise. intros [= ->].
  destruct (meth_response method) as [response|]; [|done].
  revert Hresp. unfold convert_response.
  destruct (response_statuses wadl_file response) as [statuses|e] eqn:Hst.
  2: { rewrite bind_Raise. intros [= ->]. revert Hst. unfold response_statuses.
       by destruct (resp_status response). }
  rewrite bind_Ok.
  destruct (for_each _ statuses []) as [responses|e] eqn:Hloop; [done|].
  rewrite bind_Raise. intros [= ->].
  apply for_each_Raise in Hloop as (st & status & _ & Hstatus).
  apply convert_status_parse_error in Hstatus as (? & ? & ? & -> & ?). done.
Qed.

(** X21. [convert] raises a [WADLParseError] only when it is strict, and
    only for a code sample: the error names the WADL file and, as its
    location, the summary of a method of the WADL; its cause is the
    [ValueError] of the decoder. *)
Theorem convert_parse_error title defaults resources m f l c :
  convert options wadl_file title defaults resources = Raise (WADLParseError m f l c) ->
  strict options = true /\ m = "Unparsable code sample" /\ f = wadl_file /\
  (exists msg, c = ValueError msg) /\
  exists resource method,
    resource ∈ resources /\ method ∈ res_methods resource /\ meth_title method = Some l.
Proof.
  unfold convert.
  destruct (for_each (convert_resource options wadl_file) resources []) as [paths|e] eqn:Hwalk.
  - rewrite bind_Ok. cbv zeta.
    destruct (merge_dicts _ defaults []) as [m' [[]|e]] eqn:Hrun; [done|].
    unfold merge_result. simpl. intros [= ->].
    by apply merge_raises_conflict in Hrun as (q & _ & Hq).
  - rewrite bind_Raise. intros [= ->].
    apply for_each_Raise in Hwalk as (paths & resource & Hin & Hres).
    revert Hres. unfold convert_resource. cbv zeta.
    destruct (build_params options _ []) as [ps|e] eqn:Hps.
    2: { rewrite bind_Raise. intros [= ->]. by apply build_params_not_parse_error in Hps. }
    rewrite bind_Ok.
    destruct (for_each _ (res_methods resource) _) as [item|e] eqn:Hmethods; [done|].
    rewrite bind_Raise. intros [= ->].
    apply for_each_Raise in Hmethods as (item & method & Hm & Hmethod).
    apply convert_method_parse_error in Hmethod as (? & ? & ? & ? & ?).
    split_and!; try done. by exists resource, method.
Qed.
End parse_errors.

Lemma loads_raises_ValueError s e :
  PyJson.loads s = Raise e -> exists msg, e = ValueError msg.
Proof.
  unfold PyJson.loads.
  destruct (PyJson.scan_value _ _) as [[v rest]|]; [|intros [= <-]; by eexists].
  destruct (PyJson.skip_ws rest); [done|]. intros [= <-]. by eexists.
Qed.

Lemma convert_parse_error_witness :
  let options := {| autofix := false; strict := true; nodoc := false; merge_dir := "." |} in
  strict options = true /\
  "Unparsable code sample" = "Unparsable code sample" /\ "api.wadl" = "api.wadl" /\
  (exists msg, ValueError "No JSON object could be decoded" = ValueError msg) /\
  exists resource method,
    resource ∈ one_method_api "<servers/>" /\ method ∈ res_methods resource /\
    meth_title method = Some "List servers".
Proof.
  intros options.
  exact (convert_parse_error (H := PyJson.module) loads_raises_ValueError options "api.wadl"
           "T" [] (one_method_api "<servers/>") _ _ _ _ eq_refl).
Defined.
